(** * MCQ extractor: a shallow embedding of [extractor.py]

    The development follows the layout of the module: character and string
    primitives of the Python runtime that the module relies on, the regular
    expressions it hands to [re], the line classifiers ([is_topic],
    [is_question], [is_option], [is_answer]), the normalisers ([clean_topic],
    [clean_question], [clean_option], [clean_answer]), the commit procedure
    [save_question], the line loop of [parse_mcqs] and the driver
    [extract_mcqs_from_pdf].

    Characters are the 256 values of [ascii], read as the code points
    U+0000..U+00FF; the character classes below are those of CPython's [str]
    and [re] on that range.  Operations that raise in Python (indexing a
    string or a list out of range) raise in the model too: they live in the
    error monad [result]. *)

From Stdlib Require Import Bool Arith NArith Lia List Ascii String DecimalString
  DecimalNat FinFun.
Import ListNotations.
Local Open Scope string_scope.
Local Open Scope nat_scope.
Local Open Scope list_scope.

(** ** Exceptions and the error monad *)

Inductive exn : Type :=
| IndexError
| RuntimeError (msg : string).

Inductive result (A : Type) : Type :=
| Ok (a : A)
| Raise (e : exn).

Arguments Ok {A} a.
Arguments Raise {A} e.

Definition bind {A B : Type} (m : result A) (f : A -> result B) : result B :=
  match m with
  | Ok a => f a
  | Raise e => Raise e
  end.

Notation "x <- m ;; k" := (bind m (fun x => k))
  (at level 61, m at next level, right associativity).

(** ** Characters *)

Module Char.

Definition code (c : ascii) : N := N_of_ascii c.

Definition between (lo hi : N) (c : ascii) : bool :=
  (lo <=? code c)%N && (code c <=? hi)%N.

(** [str.isspace] on one character, also the class [\s] of [re]. *)
Definition isspace (c : ascii) : bool :=
  between 9 13 c || between 28 32 c || (code c =? 133)%N || (code c =? 160)%N.

(** The class [\d] of [re]: decimal digits. *)
Definition isdecimal (c : ascii) : bool := between 48 57 c.

(** [str.isdigit] on one character: the decimal digits and the
    superscripts U+00B2, U+00B3, U+00B9. *)
Definition isdigit (c : ascii) : bool :=
  isdecimal c || (code c =? 178)%N || (code c =? 179)%N || (code c =? 185)%N.

Definition isupper (c : ascii) : bool :=
  between 65 90 c || between 192 214 c || between 216 222 c.

Definition islower (c : ascii) : bool :=
  between 97 122 c || (code c =? 170)%N || (code c =? 181)%N
  || (code c =? 186)%N || between 223 246 c || between 248 255 c.

Definition lower (c : ascii) : ascii :=
  if isupper c then ascii_of_N (code c + 32) else c.

End Char.

(** ** Strings: the [str] methods used by the module *)

Definition is_empty (s : string) : bool :=
  match s with
  | EmptyString => true
  | String _ _ => false
  end.

Fixpoint str_exists (p : ascii -> bool) (s : string) : bool :=
  match s with
  | EmptyString => false
  | String c s' => p c || str_exists p s'
  end.

Definition str_map (f : ascii -> ascii) : string -> string :=
  fix go (s : string) : string :=
    match s with
    | EmptyString => EmptyString
    | String c s' => String (f c) (go s')
    end.

(** [s.lower()] *)
Definition lower (s : string) : string := str_map Char.lower s.

(** [s.isupper()]: no lower-case character and at least one upper-case one. *)
Definition isupper (s : string) : bool :=
  negb (str_exists Char.islower s) && str_exists Char.isupper s.

(** [s.lstrip()], [s.rstrip()], [s.strip()] *)
Fixpoint lstrip (s : string) : string :=
  match s with
  | EmptyString => EmptyString
  | String c s' => if Char.isspace c then lstrip s' else s
  end.

Fixpoint rstrip (s : string) : string :=
  match s with
  | EmptyString => EmptyString
  | String c s' =>
      let r := rstrip s' in
      if Char.isspace c && is_empty r then EmptyString else String c r
  end.

Definition strip (s : string) : string := rstrip (lstrip s).

(** [s.split()]: the maximal runs of characters that are not white space.
    [cur] is the run being read, if any. *)
Fixpoint split_ws_from (cur : option string) (s : string) : list string :=
  match s with
  | EmptyString =>
      match cur with
      | Some w => [w]
      | None => []
      end
  | String c s' =>
      if Char.isspace c then
        match cur with
        | Some w => w :: split_ws_from None s'
        | None => split_ws_from None s'
        end
      else
        match cur with
        | Some w => split_ws_from (Some (w ++ String c EmptyString)%string) s'
        | None => split_ws_from (Some (String c EmptyString)) s'
        end
  end.

Definition split_ws (s : string) : list string := split_ws_from None s.

(** [s.split(sep)] for a one-character separator. *)
Fixpoint split_on (sep : ascii) (s : string) : list string :=
  match s with
  | EmptyString => [EmptyString]
  | String c s' =>
      let r := split_on sep s' in
      if Ascii.eqb c sep then EmptyString :: r
      else
        match r with
        | w :: ws => String c w :: ws
        | [] => [String c EmptyString]
        end
  end.

Definition newline : ascii := ascii_of_N 10.

(** [sub in s] *)
Fixpoint contains (sub s : string) : bool :=
  String.prefix sub s ||
  match s with
  | EmptyString => false
  | String _ s' => contains sub s'
  end.

(** [s[0]] *)
Definition first_char (s : string) : result ascii :=
  match s with
  | EmptyString => Raise IndexError
  | String c _ => Ok c
  end.

(** ** Regular expressions

    The fragment of [re] that the module's patterns are written in, with the
    backtracking semantics of the library: alternatives are tried left to
    right, [?], [*] and [+] are greedy.  Repetition is only ever applied to a
    character class in the source, and so it is here. *)

Inductive regex : Type :=
| Eps
| Chr (c : ascii)
| Cls (p : ascii -> bool)
| Seq (r1 r2 : regex)
| Alt (r1 r2 : regex)
| Opt (r : regex)
| Star (p : ascii -> bool)
| Plus (p : ascii -> bool).

Module Re.

(** A literal word, e.g. [Question]. *)
Fixpoint lit (s : string) : regex :=
  match s with
  | EmptyString => Eps
  | String c s' => Seq (Chr c) (lit s')
  end.

Fixpoint cat (rs : list regex) : regex :=
  match rs with
  | [] => Eps
  | r :: rs' => Seq r (cat rs')
  end.

Fixpoint alt (r : regex) (rs : list regex) : regex :=
  match rs with
  | [] => r
  | r' :: rs' => Alt r (alt r' rs')
  end.

(** A bracket class that lists its members, e.g. [[\.\:)]]. *)
Definition one_of (members : string) (c : ascii) : bool :=
  str_exists (Ascii.eqb c) members.

(** Literal comparison; under [re.IGNORECASE] both sides are lower-cased. *)
Definition chr_eq (ignorecase : bool) (c x : ascii) : bool :=
  if ignorecase then Ascii.eqb (Char.lower c) (Char.lower x) else Ascii.eqb c x.

Fixpoint star (p : ascii -> bool) (s : string)
         (k : string -> option string) : option string :=
  match s with
  | String c s' =>
      if p c then
        match star p s' k with
        | Some rest => Some rest
        | None => k s
        end
      else k s
  | EmptyString => k s
  end.

(** [run ic r s k]: match [r] at the head of [s], then hand what is left to
    the continuation [k]; if [k] fails, backtrack. *)
Fixpoint run (ic : bool) (r : regex) (s : string)
         (k : string -> option string) : option string :=
  match r with
  | Eps => k s
  | Chr c =>
      match s with
      | String x s' => if chr_eq ic c x then k s' else None
      | EmptyString => None
      end
  | Cls p =>
      match s with
      | String x s' => if p x then k s' else None
      | EmptyString => None
      end
  | Seq r1 r2 => run ic r1 s (fun s' => run ic r2 s' k)
  | Alt r1 r2 =>
      match run ic r1 s k with
      | Some rest => Some rest
      | None => run ic r2 s k
      end
  | Opt r1 =>
      match run ic r1 s k with
      | Some rest => Some rest
      | None => k s
      end
  | Star p => star p s k
  | Plus p =>
      match s with
      | String x s' => if p x then star p s' k else None
      | EmptyString => None
      end
  end.

(** [re.match(r, s)]: the text after the match, if there is a match at the
    start of [s]. *)
Definition rmatch (ic : bool) (r : regex) (s : string) : option string :=
  run ic r s Some.

Definition matches (ic : bool) (r : regex) (s : string) : bool :=
  match rmatch ic r s with
  | Some _ => true
  | None => false
  end.

(** [re.sub(r, '', s)] for a pattern anchored by [^]: without
    [re.MULTILINE] such a pattern can only match at offset 0, so the
    substitution deletes that one match, if any. *)
Definition sub_prefix (ic : bool) (r : regex) (s : string) : string :=
  match rmatch ic r s with
  | Some rest => rest
  | None => s
  end.

End Re.

Definition any_in (subs : list string) (s : string) : bool :=
  existsb (fun sub => contains sub s) subs.

(** ** Line classifier *)

Definition topic_indicators : list string :=
  ["chapter"; "unit"; "section"; "topic"; "part"].

Definition is_topic (line : string) : result bool :=
  if isupper line && (2 <=? List.length (split_ws line)) then Ok true
  else if any_in topic_indicators (lower line) then Ok true
  else if (String.length line <? 50) && negb (any_in ["?"; "("; ")"] line) then
    c0 <- first_char line ;;
    if negb (Char.isdigit c0) && negb (contains ":" line) then Ok true
    else Ok false
  else Ok false.

Definition dot_colon_paren : ascii -> bool := Re.one_of ".:)".

Definition question_patterns : list regex :=
  [ Re.cat [Chr "Q"; Plus Char.isdecimal; Cls dot_colon_paren];
    Re.cat [Chr "Q"; Cls dot_colon_paren];
    Re.cat [Plus Char.isdecimal; Cls dot_colon_paren];
    Re.cat [Re.lit "Question"; Star Char.isspace; Star Char.isdecimal;
            Cls (Re.one_of ".:")] ].

Definition is_question (line : string) : bool :=
  existsb (fun pattern => Re.matches true pattern line) question_patterns
  || contains "?" line.

Definition letter_a_to_f (c : ascii) : bool :=
  Char.between 65 70 c || Char.between 97 102 c.

Definition option_patterns : list regex :=
  [ Re.cat [Opt (Cls (Re.one_of "(")); Cls letter_a_to_f; Cls (Re.one_of ").")];
    Re.cat [Opt (Cls (Re.one_of "(")); Plus Char.isdecimal; Cls (Re.one_of ").")];
    Re.cat [Chr "["; Cls letter_a_to_f; Chr "]"] ].

Definition is_option (line : string) : bool :=
  existsb (fun pattern => Re.matches false pattern line) option_patterns.

Definition answer_indicators : list string :=
  ["answer"; "correct answer"; "correct option"; "ans:"; "ans."; "solution";
   "correct:"].

Definition is_answer (line : string) : bool :=
  any_in answer_indicators (lower line).

(** ** Text normaliser *)

Definition topic_prefix : regex :=
  Re.cat [Re.alt (Re.lit "chapter")
            [Re.lit "unit"; Re.lit "section"; Re.lit "topic"; Re.lit "part"];
          Star Char.isspace; Star Char.isdecimal; Opt (Cls (Re.one_of ":."));
          Star Char.isspace].

Definition clean_topic (line : string) : string :=
  strip (Re.sub_prefix true topic_prefix line).

Definition question_word_prefix : regex :=
  Re.cat [Alt (Re.lit "Q") (Re.lit "Question"); Star Char.isspace;
          Star Char.isdecimal; Cls dot_colon_paren; Star Char.isspace].

Definition question_number_prefix : regex :=
  Re.cat [Plus Char.isdecimal; Cls dot_colon_paren; Star Char.isspace].

Definition clean_question (line : string) : string :=
  let line := Re.sub_prefix true question_word_prefix line in
  let line := Re.sub_prefix false question_number_prefix line in
  strip line.

Definition option_marker (c : ascii) : bool :=
  letter_a_to_f c || Char.isdecimal c.

Definition option_prefix : regex :=
  Re.cat [Opt (Cls (Re.one_of "([")); Cls option_marker; Cls (Re.one_of ").]");
          Star Char.isspace].

Definition clean_option (line : string) : string :=
  strip (Re.sub_prefix false option_prefix line).

Definition answer_prefix : regex :=
  Re.cat [Re.alt (Re.lit "answer")
            [Re.lit "correct answer"; Re.lit "correct option"; Re.lit "ans";
             Re.lit "solution"; Re.lit "correct"];
          Opt (Cls (Re.one_of ":.")); Star Char.isspace].

Definition clean_answer (line : string) : string :=
  strip (Re.sub_prefix true answer_prefix line).

(** ** Data model *)

(** An extracted image: [{'page': .., 'index': .., 'path': ..}]. *)
Record Image : Type := mkImage {
  page : nat;
  index : nat;
  path : string
}.

(** A question dictionary. *)
Record Question : Type := mkQuestion {
  question : string;
  options : list string;
  answer : option string;
  image : option string;
  video_link : option string
}.

(** A topic dictionary. *)
Record Topic : Type := mkTopic {
  topic : string;
  questions : list Question
}.

Definition set_question (q : Question) (text : string) : Question :=
  mkQuestion text (options q) (answer q) (image q) (video_link q).

Definition set_options (q : Question) (opts : list string) : Question :=
  mkQuestion (question q) opts (answer q) (image q) (video_link q).

Definition set_answer (q : Question) (a : option string) : Question :=
  mkQuestion (question q) (options q) a (image q) (video_link q).

Definition set_image (q : Question) (i : option string) : Question :=
  mkQuestion (question q) (options q) (answer q) i (video_link q).

Definition set_video_link (q : Question) (v : option string) : Question :=
  mkQuestion (question q) (options q) (answer q) (image q) v.

(** ** Lists: indexing as Python does it *)

Definition is_nil {A : Type} (l : list A) : bool :=
  match l with
  | [] => true
  | _ :: _ => false
  end.

(** [l[i]] for [i >= 0] *)
Definition list_index {A : Type} (l : list A) (i : nat) : result A :=
  match nth_error l i with
  | Some x => Ok x
  | None => Raise IndexError
  end.

(** [l[-1] = f(l[-1])], the in-place update of the last element *)
Fixpoint update_last {A : Type} (f : A -> A) (l : list A) : result (list A) :=
  match l with
  | [] => Raise IndexError
  | x :: l' =>
      match l' with
      | [] => Ok [f x]
      | _ :: _ => r <- update_last f l' ;; Ok (x :: r)
      end
  end.

(** ** Asset correlator and commit *)

(** [topic or 'General Questions'] *)
Definition topic_or_default (t : option string) : string :=
  match t with
  | Some name => if is_empty name then "General Questions" else name
  | None => "General Questions"
  end.

Definition add_question (q : Question) (t : Topic) : Topic :=
  mkTopic (topic t) (questions t ++ [q]).

Definition save_question (structured_data : list Topic) (topic : option string)
           (question : Question) (options : list string)
           (images : list Image) (links : list string)
           (image_index : nat) : result (list Topic) :=
  let question := set_options question options in
  question <-
    (if image_index <? List.length images then
       img <- list_index images image_index ;;
       Ok (set_image question (Some (path img)))
     else Ok question) ;;
  question <-
    (if image_index <? List.length links then
       link <- list_index links image_index ;;
       Ok (set_video_link question (Some link))
     else Ok question) ;;
  let structured_data :=
    if is_nil structured_data then
      structured_data ++ [mkTopic (topic_or_default topic) []]
    else structured_data in
  update_last (add_question question) structured_data.

(** ** Assembly state machine *)

(** The local variables of [parse_mcqs]. *)
Record State : Type := mkState {
  structured_data : list Topic;
  current_topic : option string;
  current_question : option Question;
  current_options : list string;
  question_counter : nat;
  image_counter : nat
}.

Definition initial_state : State := mkState [] None None [] 0 0.

Definition new_question (text : string) : Question :=
  mkQuestion text [] None None None.

(** The commit shared by the three places that call [save_question]. *)
Definition commit (images : list Image) (links : list string) (st : State)
           (q : Question) : result (list Topic) :=
  save_question (structured_data st) (current_topic st) q (current_options st)
                images links (image_counter st).

(** One iteration of the [for] loop. *)
Definition process_line (images : list Image) (links : list string)
           (st : State) (raw : string) : result State :=
  let line := strip raw in
  if is_empty line then Ok st
  else
    t <- is_topic line ;;
    if t then
      st <-
        match current_question st with
        | Some q =>
            sd <- commit images links st q ;;
            Ok (mkState sd (current_topic st) None []
                        (question_counter st) (image_counter st))
        | None => Ok st
        end ;;
      let name := clean_topic line in
      Ok (mkState (structured_data st ++ [mkTopic name []]) (Some name)
                  (current_question st) (current_options st)
                  (question_counter st) (image_counter st))
    else if is_question line then
      st <-
        match current_question st with
        | Some q =>
            sd <- commit images links st q ;;
            Ok (mkState sd (current_topic st) (current_question st)
                        (current_options st) (question_counter st)
                        (image_counter st + 1))
        | None => Ok st
        end ;;
      Ok (mkState (structured_data st) (current_topic st)
                  (Some (new_question (clean_question line))) []
                  (question_counter st + 1) (image_counter st))
    else
      match current_question st with
      | None => Ok st
      | Some q =>
          if is_option line then
            Ok (mkState (structured_data st) (current_topic st)
                        (current_question st)
                        (current_options st ++ [clean_option line])
                        (question_counter st) (image_counter st))
          else if is_answer line then
            Ok (mkState (structured_data st) (current_topic st)
                        (Some (set_answer q (Some (clean_answer line))))
                        (current_options st)
                        (question_counter st) (image_counter st))
          else if negb (is_nil (current_options st)) then
            opts <- update_last (fun o => (o ++ " " ++ line)%string)
                                (current_options st) ;;
            Ok (mkState (structured_data st) (current_topic st)
                        (current_question st) opts
                        (question_counter st) (image_counter st))
          else if negb (is_empty (question q)) then
            Ok (mkState (structured_data st) (current_topic st)
                        (Some (set_question q (question q ++ " " ++ line)%string))
                        (current_options st)
                        (question_counter st) (image_counter st))
          else Ok st
      end.

Fixpoint run_lines (images : list Image) (links : list string)
         (st : State) (lines : list string) : result State :=
  match lines with
  | [] => Ok st
  | raw :: rest =>
      st' <- process_line images links st raw ;;
      run_lines images links st' rest
  end.

(** What follows the loop: the last commit. *)
Definition finish (images : list Image) (links : list string)
           (st : State) : result (list Topic) :=
  match current_question st with
  | Some q => commit images links st q
  | None => Ok (structured_data st)
  end.

Definition has_questions (t : Topic) : bool := negb (is_nil (questions t)).

(** The output assembler: topics without questions are dropped. *)
Definition assemble (sd : list Topic) : list Topic :=
  let sd := filter has_questions sd in
  if is_nil sd then [] else sd.

(** [parse_mcqs] up to the filter: the topic list as the loop and the last
    commit leave it. *)
Definition parse_raw (lines : list string) (images : list Image)
           (links : list string) : result (list Topic) :=
  st <- run_lines images links initial_state lines ;;
  finish images links st.

Definition parse_mcqs (text : string) (images : list Image)
           (links : list string) : result (list Topic) :=
  let lines := split_on newline text in
  sd <- parse_raw lines images links ;;
  Ok (assemble sd).

(** ** The document reader and the driver

    PyMuPDF is outside the module.  What the module observes of it is the
    outcome of each call, and that is what a page and a document record
    here: a call either returns or raises. *)

Record EmbeddedImage : Type := mkEmbeddedImage {
  extract_image : result string;   (* [base_image["ext"]] *)
  write_image : result unit        (* [open(image_path, "wb")] and [write] *)
}.

Record Link : Type := mkLink {
  uri : option string              (* [link['uri']], when the key is there *)
}.

Record Page : Type := mkPage {
  get_text : result string;
  get_images : result (list EmbeddedImage);
  get_links : result (list Link)
}.

Record Document : Type := mkDocument {
  pages : list Page;
  close : result unit
}.

(** [try: body except Exception: handler] *)
Definition try_except {A : Type} (body : result A) (handler : exn -> result A)
  : result A :=
  match body with
  | Ok a => Ok a
  | Raise e => handler e
  end.

(** [str(n)] for a non-negative integer *)
Definition str_of_nat (n : nat) : string :=
  DecimalString.NilEmpty.string_of_uint (Nat.to_uint n).

Definition ends_with_sep (s : string) : bool :=
  match String.get (String.length s - 1) s with
  | Some c => Ascii.eqb c "/"
  | None => false
  end.

(** [os.path.join(a, b)] *)
Definition path_join (a b : string) : string :=
  if String.prefix "/" b then b
  else if is_empty a || ends_with_sep a then (a ++ b)%string
  else (a ++ "/" ++ b)%string.

(** The loop of [extract_images_from_page]; the value is the list [images]
    as it stands when the loop ends or an exception leaves it. *)
Fixpoint images_loop (page_num : nat) (temp_dir : string) (img_index : nat)
         (image_list : list EmbeddedImage) (images : list Image) : list Image :=
  match image_list with
  | [] => images
  | img :: rest =>
      match extract_image img with
      | Raise _ => images
      | Ok image_ext =>
          let image_filename :=
            ("page" ++ str_of_nat page_num ++ "_img" ++ str_of_nat img_index
                    ++ "." ++ image_ext)%string in
          let image_path := path_join temp_dir image_filename in
          match write_image img with
          | Raise _ => images
          | Ok _ =>
              images_loop page_num temp_dir (img_index + 1) rest
                          (images ++ [mkImage page_num img_index image_path])
          end
      end
  end.

Definition extract_images_from_page (page : Page) (page_num : nat)
           (temp_dir : string) : list Image :=
  match get_images page with
  | Raise _ => []
  | Ok image_list => images_loop page_num temp_dir 0 image_list []
  end.

Definition link_keywords : list string :=
  ["youtube"; "video"; "watch"; "explanation"].

Fixpoint links_loop (link_list : list Link) (links : list string) : list string :=
  match link_list with
  | [] => links
  | link :: rest =>
      match uri link with
      | Some u =>
          if any_in link_keywords (lower u) then links_loop rest (links ++ [u])
          else links_loop rest links
      | None => links_loop rest links
      end
  end.

Definition extract_links_from_page (page : Page) : list string :=
  match get_links page with
  | Raise _ => []
  | Ok link_list => links_loop link_list []
  end.

(** The loop over the pages of [extract_mcqs_from_pdf]. *)
Fixpoint pages_loop (temp_dir : string) (page_num : nat) (doc : list Page)
         (full_text : string) (images : list Image) (links : list string)
  : result (string * list Image * list string) :=
  match doc with
  | [] => Ok (full_text, images, links)
  | page :: rest =>
      text <- get_text page ;;
      let full_text := (full_text ++ text)%string in
      let images := images ++ extract_images_from_page page page_num temp_dir in
      let links := links ++ extract_links_from_page page in
      pages_loop temp_dir (page_num + 1) rest full_text images links
  end.

Section Driver.

(** [fitz.open] *)
Variable fitz_open : string -> result Document.

(** The body of the [try] statement. *)
Definition extract_body (pdf_path temp_dir : string) : result (list Topic) :=
  doc <- fitz_open pdf_path ;;
  r <- pages_loop temp_dir 0 (pages doc) EmptyString [] [] ;;
  let '(full_text, images, links) := r in
  _ <- close doc ;;
  structured_data <- parse_mcqs full_text images links ;;
  Ok structured_data.

Definition extract_mcqs_from_pdf (pdf_path temp_dir : string)
  : result (list Topic) :=
  try_except (extract_body pdf_path temp_dir) (fun _ => Ok []).

End Driver.

(** * The bot: a shallow embedding of the handlers of [bot.py]

    The handlers talk to Telegram through [reply_text] and [reply_photo].
    A chat records the messages that went out and the number of calls made;
    whether the n-th call returns or raises is up to the network, and is
    given by an oracle, as are the file system and the download.  The texts
    of the bot hold characters beyond U+00FF, so a message text is a list
    of code points. *)

Module Bot.

Definition Text : Type := list N.

(** A [str] of the extractor, or an ASCII literal, as code points. *)
Definition u (s : string) : Text := map N_of_ascii (list_ascii_of_string s).

Definition nl : Text := [10%N].

Inductive Message : Type :=
| ReplyText (text : Text) (parse_mode : option string)
| ReplyPhoto (photo : string) (caption : Text).

Record Chat : Type := mkChat {
  sent : list Message;
  calls : nat
}.

(** A coroutine of the bot: it changes the chat and returns or raises. *)
Definition IO (A : Type) : Type := Chat -> result A * Chat.

Definition ret {A : Type} (a : A) : IO A := fun c => (Ok a, c).

Definition lift {A : Type} (r : result A) : IO A := fun c => (r, c).

Definition io_bind {A B : Type} (m : IO A) (f : A -> IO B) : IO B :=
  fun c =>
    match m c with
    | (Ok a, c') => f a c'
    | (Raise e, c') => (Raise e, c')
    end.

Notation "x <~ m ;; k" := (io_bind m (fun x => k))
  (at level 61, m at next level, right associativity).

(** [try: body except Exception: handler] *)
Definition io_try {A : Type} (body : IO A) (handler : exn -> IO A) : IO A :=
  fun c =>
    match body c with
    | (Ok a, c') => (Ok a, c')
    | (Raise e, c') => handler e c'
    end.

(** [s.endswith(suffix)] *)
Fixpoint ends_with (suffix s : string) : bool :=
  String.eqb s suffix ||
  match s with
  | EmptyString => false
  | String _ s' => ends_with suffix s'
  end.

(** [update.message.document] *)
Record Upload : Type := mkUpload {
  file_name : string
}.

Definition option_labels : list string :=
  ["A)"; "B)"; "C)"; "D)"; "E)"; "F)"].

Definition markdown : option string := Some "Markdown".

Definition msg_pdf_only : Text :=
  [0x26a0%N; 0xfe0f%N] ++ u " Please send a PDF file only." ++ nl
  ++ u "Other file formats are not supported.".

Definition msg_downloading : Text :=
  [0x1f4e5%N] ++ u " Downloading your file...".

Definition msg_extracting : Text :=
  [0x1f9e0%N] ++ u " Extracting MCQs, please wait...".

Definition msg_could_not_extract : Text :=
  [0x26a0%N; 0xfe0f%N] ++ u " Could not extract MCQs. Please try another file."
  ++ nl ++ nl ++ u "Make sure your PDF contains:" ++ nl
  ++ [0x2022%N] ++ u " Clear question numbers" ++ nl
  ++ [0x2022%N] ++ u " Multiple choice options (A, B, C, D)" ++ nl
  ++ [0x2022%N] ++ u " Readable text (not scanned images)".

Definition msg_complete : Text := [0x2705%N] ++ u " Extraction complete!".

Definition msg_error : Text :=
  [0x274c%N] ++ u " An error occurred while processing your file." ++ nl
  ++ u "Please try again or send a different PDF.".

Definition photo_caption : Text := [0x1f5bc%N; 0xfe0f%N] ++ u " Question Image".

(** The loop over [enumerate(options)]: only the options that have a label
    are written. *)
Fixpoint add_options (i : nat) (options : list string) (question_text : Text)
  : Text :=
  match options with
  | [] => question_text
  | option :: rest =>
      add_options (i + 1) rest
        (if i <? List.length option_labels then
           question_text ++ u (nth i option_labels EmptyString) ++ u " "
                         ++ u option ++ nl
         else question_text)
  end.

Section Handlers.

(** Does the n-th call to [reply_text] or [reply_photo] return? *)
Variable delivers : nat -> Message -> bool.

(** [os.path.exists] and [open(path, 'rb')] *)
Variable path_exists : string -> bool.
Variable can_open : string -> bool.

(** [tempfile.mkdtemp], [document.get_file], [file.download_to_drive] and
    [fitz.open] *)
Variable mkdtemp : result string.
Variable get_file : result unit.
Variable download_to_drive : string -> result unit.
Variable fitz_open : string -> result Document.

Definition reply (m : Message) : IO unit :=
  fun c =>
    if delivers (calls c) m then (Ok tt, mkChat (sent c ++ [m]) (calls c + 1))
    else (Raise (RuntimeError "reply failed"), mkChat (sent c) (calls c + 1)).

Definition reply_text (text : Text) (parse_mode : option string) : IO unit :=
  reply (ReplyText text parse_mode).

Definition reply_photo (photo : string) (caption : Text) : IO unit :=
  reply (ReplyPhoto photo caption).

Definition send_single_question (question_data : Question) (q_num : nat)
  : IO unit :=
  let question_text :=
    [0x2753%N] ++ u " **Q" ++ u (str_of_nat q_num) ++ u ". "
    ++ u (question question_data) ++ u "**" ++ nl ++ nl in
  let question_text := add_options 0 (options question_data) question_text in
  let question_text :=
    match answer question_data with
    | Some a =>
        if negb (is_empty a) then
          question_text ++ nl ++ [0x2705%N] ++ u " **Correct Answer:** " ++ u a
        else question_text
    | None => question_text
    end in
  _ <~ reply_text question_text markdown ;;
  _ <~ match image question_data with
       | Some image_path =>
           if negb (is_empty image_path) && path_exists image_path then
             io_try
               (if can_open image_path then reply_photo image_path photo_caption
                else lift (Raise (RuntimeError "open failed")))
               (fun _ => ret tt)
           else ret tt
       | None => ret tt
       end ;;
  match video_link question_data with
  | Some link =>
      if negb (is_empty link) then
        reply_text ([0x1f3a5%N] ++ u " **Watch Explanation Video:**" ++ nl
                    ++ u link) markdown
      else ret tt
  | None => ret tt
  end.

(** The loop over [enumerate(questions, 1)]. *)
Fixpoint send_questions (idx : nat) (questions : list Question) : IO unit :=
  match questions with
  | [] => ret tt
  | q :: rest =>
      _ <~ send_single_question q idx ;;
      send_questions (idx + 1) rest
  end.

Fixpoint send_extracted_content (data : list Topic) : IO unit :=
  match data with
  | [] => ret tt
  | topic_data :: rest =>
      if is_nil (questions topic_data) then send_extracted_content rest
      else
        let topic_message :=
          [0x1f4d8%N] ++ u " **Topic: " ++ u (topic topic_data) ++ u "**" ++ nl
          ++ repeat 0x2500%N 40 in
        _ <~ reply_text topic_message markdown ;;
        _ <~ send_questions 1 (questions topic_data) ;;
        _ <~ reply_text (repeat 0x2501%N 40) None ;;
        send_extracted_content rest
  end.

(** [handle_document]; the [finally] clause removes the temporary directory
    and swallows its own errors: it changes neither the chat nor the
    outcome. *)
Definition handle_document (document : Upload) : IO unit :=
  if negb (ends_with ".pdf" (lower (file_name document))) then
    reply_text msg_pdf_only None
  else
    temp_dir <~ lift mkdtemp ;;
    let pdf_path := path_join temp_dir (file_name document) in
    io_try
      (_ <~ reply_text msg_downloading None ;;
       _ <~ lift get_file ;;
       _ <~ lift (download_to_drive pdf_path) ;;
       _ <~ reply_text msg_extracting None ;;
       extracted_data <~ lift (extract_mcqs_from_pdf fitz_open pdf_path temp_dir) ;;
       if is_nil extracted_data then reply_text msg_could_not_extract None
       else
         _ <~ send_extracted_content extracted_data ;;
         reply_text msg_complete None)
      (fun _ => reply_text msg_error None).

End Handlers.

End Bot.

(** ** Vocabulary of the statements *)

(** ["\n".join(lines)] *)
Definition unlines (lines : list string) : string :=
  String.concat (String newline EmptyString) lines.

(** The question as [save_question] stores it. *)
Definition correlated (q : Question) (opts : list string) (images : list Image)
           (links : list string) (k : nat) : Question :=
  mkQuestion (question q) opts (answer q)
             (match nth_error images k with
              | Some img => Some (path img)
              | None => image q
              end)
             (match nth_error links k with
              | Some link => Some link
              | None => video_link q
              end).

(** A question that is still open carries no image and no link. *)
Definition unset_assets (st : State) : Prop :=
  forall q, current_question st = Some q ->
            image q = None /\ video_link q = None.

(** The line reaches the topic branch. *)
Definition is_topic_line (raw : string) : bool :=
  match is_topic (strip raw) with
  | Ok true => negb (is_empty (strip raw))
  | _ => false
  end.

(** The line reaches the question branch: it is not blank, not a topic, and
    [is_question] holds. *)
Definition is_question_line (raw : string) : bool :=
  match is_topic (strip raw) with
  | Ok false => negb (is_empty (strip raw)) && is_question (strip raw)
  | _ => false
  end.

(** The line is blank or falls through to the option, answer and
    continuation tests: an open question stays open. *)
Definition keeps_open (raw : string) : bool :=
  negb (is_topic_line raw) && negb (is_question_line raw).

(** The line reaches the answer branch when a question is open. *)
Definition is_answer_line (raw : string) : bool :=
  keeps_open raw && negb (is_empty (strip raw))
  && negb (is_option (strip raw)) && is_answer (strip raw).

(** The last line of a block that reaches the answer branch. *)
Fixpoint last_answer_line (block : list string) : option string :=
  match block with
  | [] => None
  | raw :: rest =>
      match last_answer_line rest with
      | Some r => Some r
      | None => if is_answer_line raw then Some raw else None
      end
  end.

(** No question is open and no topic record holds one. *)
Definition no_questions_yet (st : State) : Prop :=
  current_question st = None /\
  Forall (fun t => questions t = []) (structured_data st).

(** The topic list [sd] starts with [pre] and goes on: no record of [pre] is
    the last one. *)
Definition extends (pre sd : list Topic) : Prop :=
  exists tail, is_nil tail = false /\ sd = pre ++ tail.

(** The lines up to the next topic line, or up to the end when there is
    none. *)
Fixpoint until_topic (lines : list string) : list string :=
  match lines with
  | [] => []
  | raw :: rest => if is_topic_line raw then [] else raw :: until_topic rest
  end.

(** The line is not blank once stripped. *)
Definition nonblank (raw : string) : bool := negb (is_empty (strip raw)).

(** The line reaches the option branch when a question is open. *)
Definition is_option_line (raw : string) : bool :=
  keeps_open raw && nonblank raw && is_option (strip raw).

(** The number of questions a topic list holds. *)
Definition total_questions (sd : list Topic) : nat :=
  list_sum (map (fun t => List.length (questions t)) sd).

(** 1 when a question is open, 0 otherwise. *)
Definition open_count (st : State) : nat :=
  match current_question st with
  | Some _ => 1
  | None => 0
  end.

(** The image and the link of a question, when set, come from the asset
    lists. *)
Definition assets_from (images : list Image) (links : list string)
           (q : Question) : Prop :=
  (forall p, image q = Some p -> In p (map path images)) /\
  (forall l, video_link q = Some l -> In l links).

(** The topic list is empty or is the one synthesised topic. *)
Definition only_default (sd : list Topic) : Prop :=
  sd = [] \/ exists qs, sd = [mkTopic "General Questions" qs].

(** Every stored question takes its image and its link from the lists. *)
Definition stored_assets_from (images : list Image) (links : list string)
           (sd : list Topic) : Prop :=
  Forall (fun t => Forall (assets_from images links) (questions t)) sd.

(** The file name [f"page{page_num}_img{img_index}.{image_ext}"]. *)
Definition image_filename (page_num img_index : nat) (image_ext : string)
  : string :=
  ("page" ++ str_of_nat page_num ++ "_img" ++ str_of_nat img_index
          ++ "." ++ image_ext)%string.

(** The embedded image cannot be extracted, or cannot be written. *)
Definition image_failed (e : EmbeddedImage) : Prop :=
  (exists x, extract_image e = Raise x) \/ (exists x, write_image e = Raise x).

(** The uris of the links that have one, in order. *)
Definition uris (link_list : list Link) : list string :=
  flat_map (fun link => match uri link with
                        | Some u => [u]
                        | None => []
                        end) link_list.

(** The images of all pages, the first page being numbered [page_num]. *)
Fixpoint doc_images (temp_dir : string) (page_num : nat) (doc : list Page)
  : list Image :=
  match doc with
  | [] => []
  | page :: rest =>
      extract_images_from_page page page_num temp_dir
      ++ doc_images temp_dir (page_num + 1) rest
  end.

(** The links of all pages. *)
Definition doc_links (doc : list Page) : list string :=
  flat_map extract_links_from_page doc.

(** The texts one after the other, with nothing in between. *)
Definition join_all (texts : list string) : string :=
  fold_right String.append EmptyString texts.

(** The page and the rank of an image. *)
Definition image_key (img : Image) : nat * nat := (page img, index img).

(** The string starts, or ends, with a white-space character. *)
Definition starts_with_space (s : string) : bool :=
  match s with
  | EmptyString => false
  | String c _ => Char.isspace c
  end.

Fixpoint ends_with_space (s : string) : bool :=
  match s with
  | EmptyString => false
  | String c s' => if is_empty s' then Char.isspace c else ends_with_space s'
  end.

(** The line reaches the continuation branch when a question is open: it is
    not blank and is no topic, question, option or answer. *)
Definition is_continuation_line (raw : string) : bool :=
  keeps_open raw && nonblank raw
  && negb (is_option (strip raw)) && negb (is_answer (strip raw)).

(** What the lines [conts] add to a text when they are folded into it one
    after the other: [+= " " + line] with the stripped line, for each. *)
Definition folded_text (conts : list string) : string :=
  join_all (map (fun raw => (" " ++ strip raw)%string) conts).

(** [rest] is the folded text of continuation lines among [lines]. *)
Definition folded_from (lines : list string) (rest : string) : Prop :=
  exists conts,
    Forall (fun raw => In raw lines /\ is_continuation_line raw = true) conts /\
    rest = folded_text conts.

(** Where the texts of the output come from, [lines] being the lines of the
    input: a topic name is the default name or a normalised topic line; a
    question's text is a normalised question line followed by the folded text
    of continuation lines; an option is a normalised option line followed by
    the folded text of continuation lines; an answer is a normalised answer
    line. *)
Definition topic_from (lines : list string) (name : string) : Prop :=
  name = "General Questions" \/
  exists raw, In raw lines /\ is_topic_line raw = true /\
              name = clean_topic (strip raw).

Definition option_from (lines : list string) (o : string) : Prop :=
  exists raw rest, In raw lines /\ is_option_line raw = true /\
                   folded_from lines rest /\
                   o = (clean_option (strip raw) ++ rest)%string.

Definition question_from (lines : list string) (q : Question) : Prop :=
  (exists raw rest, In raw lines /\ is_question_line raw = true /\
                    folded_from lines rest /\
                    question q = (clean_question (strip raw) ++ rest)%string) /\
  (forall a, answer q = Some a ->
             exists raw, In raw lines /\ is_answer_line raw = true /\
                         a = clean_answer (strip raw)).

Definition stored_from (lines : list string) (sd : list Topic) : Prop :=
  Forall (fun t =>
            topic_from lines (topic t) /\
            Forall (fun q => question_from lines q /\
                             Forall (option_from lines) (options q))
                   (questions t)) sd.

Definition state_from (lines : list string) (st : State) : Prop :=
  stored_from lines (structured_data st) /\
  (forall name, current_topic st = Some name -> topic_from lines name) /\
  (forall q, current_question st = Some q -> question_from lines q) /\
  Forall (option_from lines) (current_options st).

(** The least number of characters a match of [r] consumes. *)
Fixpoint min_length (r : regex) : nat :=
  match r with
  | Eps => 0
  | Chr _ => 1
  | Cls _ => 1
  | Seq r1 r2 => min_length r1 + min_length r2
  | Alt r1 r2 => Nat.min (min_length r1) (min_length r2)
  | Opt _ => 0
  | Star _ => 0
  | Plus _ => 1
  end.



(** The question's text starts with the normalised text of the line. *)
Definition question_of_line (q : Question) (raw : string) : Prop :=
  exists rest, question q = (clean_question (strip raw) ++ rest)%string.

(** The question that is open, if any, as a list. *)
Definition open_questions (st : State) : list Question :=
  match current_question st with
  | Some q => [q]
  | None => []
  end.

(** The questions stored and open are, in order, those of the question
    lines among [done]. *)
Definition in_line_order (done : list string) (st : State) : Prop :=
  Forall2 question_of_line
          (flat_map questions (structured_data st) ++ open_questions st)
          (filter is_question_line done).

(** The names of the topic records are those of the topic lines among
    [done], in order, after the default name if a question was stored before
    the first topic line. *)
Definition topics_in_line_order (done : list string) (st : State) : Prop :=
  (exists prefix,
      (prefix = [] \/ prefix = ["General Questions"]) /\
      map topic (structured_data st) =
        prefix ++ map (fun raw => clean_topic (strip raw))
                      (filter is_topic_line done)) /\
  (structured_data st = [] -> current_topic st = None).


(** * Properties *)

(** ** Lists and the error monad *)

Lemma update_last_snoc {A : Type} (f : A -> A) (l : list A) (x : A) :
  update_last f (l ++ [x]) = Ok (l ++ [f x]).
Proof.
  induction l as [|y l IH]; simpl.
  - reflexivity.
  - destruct (l ++ [x]) eqn:E.
    + destruct l; discriminate.
    + rewrite IH. reflexivity.
Qed.

Lemma nonempty_snoc {A : Type} (l : list A) :
  is_nil l = false -> exists l' x, l = l' ++ [x].
Proof.
  intros H. destruct (exists_last (l := l)) as [l' [x E]].
  - destruct l; [discriminate | congruence].
  - eauto.
Qed.

Lemma list_index_nth_error {A : Type} (l : list A) (i : nat) :
  i < List.length l -> exists x, nth_error l i = Some x /\ list_index l i = Ok x.
Proof.
  intros H. unfold list_index.
  destruct (nth_error l i) eqn:E.
  - eauto.
  - apply nth_error_None in E. lia.
Qed.

Lemma Forall2_snoc_inv {A B : Type} (R : A -> B -> Prop) l x l' :
  Forall2 R (l ++ [x]) l' ->
  exists m y, l' = m ++ [y] /\ Forall2 R l m /\ R x y.
Proof.
  intros H. apply Forall2_app_inv_l in H.
  destruct H as [m [n [Hm [Hn E]]]].
  inversion Hn as [|? y ? n' Rxy Hnil]; subst. inversion Hnil; subst.
  exists m, y. auto.
Qed.

Lemma str_app_assoc (a b c : string) :
  ((a ++ b) ++ c = a ++ (b ++ c))%string.
Proof. induction a as [|x a IH]; simpl; [reflexivity | rewrite IH; reflexivity]. Qed.

Lemma str_app_empty_r (a : string) : (a ++ EmptyString = a)%string.
Proof. induction a as [|x a IH]; simpl; [reflexivity | rewrite IH; reflexivity]. Qed.

(** ** The commit procedure *)

Lemma save_question_unfold sd t q opts images links k :
  save_question sd t q opts images links k =
  update_last (add_question (correlated q opts images links k))
              (if is_nil sd then [mkTopic (topic_or_default t) []] else sd).
Proof.
  unfold save_question, correlated.
  destruct (k <? List.length images) eqn:Hi.
  - apply Nat.ltb_lt in Hi.
    destruct (list_index_nth_error images k Hi) as [img [Hn Hl]].
    rewrite Hl, Hn. simpl.
    destruct (k <? List.length links) eqn:Hk.
    + apply Nat.ltb_lt in Hk.
      destruct (list_index_nth_error links k Hk) as [lk [Hn' Hl']].
      rewrite Hl', Hn'. simpl. destruct sd; reflexivity.
    + apply Nat.ltb_ge in Hk. apply nth_error_None in Hk. rewrite Hk. simpl.
      destruct sd; reflexivity.
  - apply Nat.ltb_ge in Hi. apply nth_error_None in Hi. rewrite Hi. simpl.
    destruct (k <? List.length links) eqn:Hk.
    + apply Nat.ltb_lt in Hk.
      destruct (list_index_nth_error links k Hk) as [lk [Hn' Hl']].
      rewrite Hl', Hn'. simpl. destruct sd; reflexivity.
    + apply Nat.ltb_ge in Hk. apply nth_error_None in Hk. rewrite Hk. simpl.
      destruct sd; reflexivity.
Qed.

(** [save_question] returns; it rewrites the last topic record only, and
    synthesises one when there is none. *)
Lemma save_question_ok sd t q opts images links k :
  exists before last,
    (if is_nil sd then [mkTopic (topic_or_default t) []] else sd)
      = before ++ [last] /\
    save_question sd t q opts images links k =
      Ok (before ++ [add_question (correlated q opts images links k) last]).
Proof.
  rewrite save_question_unfold.
  destruct sd as [|x sd]; simpl is_nil; cbv iota.
  - exists [], (mkTopic (topic_or_default t) []). split; reflexivity.
  - destruct (nonempty_snoc (x :: sd) eq_refl) as [before [last E]].
    exists before, last. split; [exact E|].
    rewrite E. apply update_last_snoc.
Qed.

(** ** The line loop, case by case *)

Section Loop.

Variable images : list Image.
Variable links : list string.

Lemma is_topic_empty : is_topic EmptyString = Raise IndexError.
Proof. reflexivity. Qed.

(** The first-character access of [is_topic] is safe on a line that is
    not empty. *)
Lemma is_topic_ok line :
  is_empty line = false -> exists b, is_topic line = Ok b.
Proof.
  intros H. unfold is_topic.
  destruct (isupper line && (2 <=? List.length (split_ws line))); [eauto|].
  destruct (any_in topic_indicators (lower line)); [eauto|].
  destruct ((String.length line <? 50) && negb (any_in ["?"; "("; ")"] line));
    [|eauto].
  destruct line as [|c s]; [discriminate|]. cbn [first_char bind].
  destruct (negb (Char.isdigit c) && negb (contains ":" (String c s))); eauto.
Qed.

Lemma is_topic_true_nonempty line :
  is_topic line = Ok true -> is_empty line = false.
Proof. destruct line; [discriminate | reflexivity]. Qed.

Lemma is_topic_false_nonempty line :
  is_topic line = Ok false -> is_empty line = false.
Proof. destruct line; [discriminate | reflexivity]. Qed.

Lemma commit_ok st q :
  exists before last,
    (if is_nil (structured_data st)
     then [mkTopic (topic_or_default (current_topic st)) []]
     else structured_data st) = before ++ [last] /\
    commit images links st q =
      Ok (before ++ [add_question
                       (correlated q (current_options st) images links
                                   (image_counter st)) last]).
Proof. apply save_question_ok. Qed.

Lemma process_line_blank st raw :
  is_empty (strip raw) = true -> process_line images links st raw = Ok st.
Proof. intros H. unfold process_line. rewrite H. reflexivity. Qed.

Lemma process_line_topic st raw :
  is_topic (strip raw) = Ok true ->
  process_line images links st raw =
    (st1 <- match current_question st with
            | Some q =>
                sd <- commit images links st q ;;
                Ok (mkState sd (current_topic st) None []
                            (question_counter st) (image_counter st))
            | None => Ok st
            end ;;
     Ok (mkState (structured_data st1 ++ [mkTopic (clean_topic (strip raw)) []])
                 (Some (clean_topic (strip raw)))
                 (current_question st1) (current_options st1)
                 (question_counter st1) (image_counter st1))).
Proof.
  intros H. unfold process_line.
  rewrite (is_topic_true_nonempty _ H), H. reflexivity.
Qed.

Lemma process_line_question st raw :
  is_topic (strip raw) = Ok false ->
  is_question (strip raw) = true ->
  process_line images links st raw =
    (st1 <- match current_question st with
            | Some q =>
                sd <- commit images links st q ;;
                Ok (mkState sd (current_topic st) (current_question st)
                            (current_options st) (question_counter st)
                            (image_counter st + 1))
            | None => Ok st
            end ;;
     Ok (mkState (structured_data st1) (current_topic st1)
                 (Some (new_question (clean_question (strip raw)))) []
                 (question_counter st1 + 1) (image_counter st1))).
Proof.
  intros H Hq. unfold process_line.
  rewrite (is_topic_false_nonempty _ H), H. simpl. rewrite Hq. reflexivity.
Qed.

(** A line that opens neither a topic nor a question. *)
Lemma process_line_inner st raw :
  is_topic (strip raw) = Ok false ->
  is_question (strip raw) = false ->
  process_line images links st raw =
    match current_question st with
    | None => Ok st
    | Some q =>
        if is_option (strip raw) then
          Ok (mkState (structured_data st) (current_topic st)
                      (current_question st)
                      (current_options st ++ [clean_option (strip raw)])
                      (question_counter st) (image_counter st))
        else if is_answer (strip raw) then
          Ok (mkState (structured_data st) (current_topic st)
                      (Some (set_answer q (Some (clean_answer (strip raw)))))
                      (current_options st)
                      (question_counter st) (image_counter st))
        else if negb (is_nil (current_options st)) then
          opts <- update_last (fun o => (o ++ " " ++ strip raw)%string)
                              (current_options st) ;;
          Ok (mkState (structured_data st) (current_topic st)
                      (current_question st) opts
                      (question_counter st) (image_counter st))
        else if negb (is_empty (question q)) then
          Ok (mkState (structured_data st) (current_topic st)
                      (Some (set_question q
                               (question q ++ " " ++ strip raw)%string))
                      (current_options st)
                      (question_counter st) (image_counter st))
        else Ok st
    end.
Proof.
  intros H Hq. unfold process_line.
  rewrite (is_topic_false_nonempty _ H), H. simpl. rewrite Hq. reflexivity.
Qed.

(** The classification of a raw line by the loop, as a case split. *)
Lemma line_cases raw :
  is_empty (strip raw) = true \/
  is_topic (strip raw) = Ok true \/
  (is_topic (strip raw) = Ok false /\ is_question (strip raw) = true) \/
  (is_topic (strip raw) = Ok false /\ is_question (strip raw) = false).
Proof.
  destruct (is_empty (strip raw)) eqn:E; [auto|].
  destruct (is_topic_ok _ E) as [[|] Ht]; [auto|].
  destruct (is_question (strip raw)); auto.
Qed.

Lemma process_line_ok st raw :
  exists st', process_line images links st raw = Ok st'.
Proof.
  destruct (line_cases raw) as [H | [H | [[H Hq] | [H Hq]]]].
  - rewrite (process_line_blank _ _ H). eauto.
  - rewrite (process_line_topic _ _ H).
    destruct (current_question st) as [q|]; [|simpl; eauto].
    destruct (commit_ok st q) as [b [l [_ E]]]. rewrite E. simpl. eauto.
  - rewrite (process_line_question _ _ H Hq).
    destruct (current_question st) as [q|]; [|simpl; eauto].
    destruct (commit_ok st q) as [b [l [_ E]]]. rewrite E. simpl. eauto.
  - rewrite (process_line_inner _ _ H Hq).
    destruct (current_question st) as [q|]; [|eauto].
    destruct (is_option (strip raw)); [eauto|].
    destruct (is_answer (strip raw)); [eauto|].
    destruct (is_nil (current_options st)) eqn:En; simpl.
    + destruct (is_empty (question q)); simpl; eauto.
    + destruct (nonempty_snoc _ En) as [l' [x E]]. rewrite E.
      rewrite update_last_snoc. simpl. eauto.
Qed.

Lemma run_lines_ok lines : forall st,
  exists st', run_lines images links st lines = Ok st'.
Proof.
  induction lines as [|raw rest IH]; intros st; simpl.
  - eauto.
  - destruct (process_line_ok st raw) as [st1 E]. rewrite E. simpl. apply IH.
Qed.

Lemma run_lines_app l1 : forall st l2,
  run_lines images links st (l1 ++ l2) =
    (st' <- run_lines images links st l1 ;; run_lines images links st' l2).
Proof.
  induction l1 as [|raw rest IH]; intros st l2; simpl.
  - reflexivity.
  - destruct (process_line images links st raw); simpl; [apply IH | reflexivity].
Qed.

Lemma finish_ok st : exists sd, finish images links st = Ok sd.
Proof.
  unfold finish. destruct (current_question st) as [q|]; [|eauto].
  destruct (commit_ok st q) as [b [l [_ E]]]. rewrite E. eauto.
Qed.

End Loop.

(** ** Safety of the core *)

(** C10.  [parse_mcqs] returns on every text and every pair of asset lists:
    neither the first-character access of [is_topic], nor the last-option
    access of the continuation branch, nor the indexing done by
    [save_question] ever raises. *)
Theorem parse_mcqs_total :
  forall (text : string) (images : list Image) (links : list string),
    exists topics, parse_mcqs text images links = Ok topics.
Proof.
  intros text images links. unfold parse_mcqs, parse_raw.
  destruct (run_lines_ok images links (split_on newline text) initial_state)
    as [st E].
  rewrite E. simpl.
  destruct (finish_ok images links st) as [sd F]. rewrite F. simpl. eauto.
Qed.

(** ** The asset correlator *)

Section Assets.

Variable images : list Image.
Variable links : list string.

Lemma process_line_unset st raw st' :
  unset_assets st ->
  process_line images links st raw = Ok st' ->
  unset_assets st'.
Proof.
  intros Hu.
  destruct (line_cases raw) as [H | [H | [[H Hq] | [H Hq]]]].
  - rewrite (process_line_blank _ _ _ _ H). intros E; inversion E; subst; exact Hu.
  - rewrite (process_line_topic _ _ _ _ H).
    destruct (current_question st) as [q|] eqn:Eq.
    + destruct (commit_ok images links st q) as [b [l [_ E]]]. rewrite E. simpl.
      intros E'; inversion E'; subst. intros q' Hq'. discriminate.
    + simpl. rewrite Eq. intros E'; inversion E'; subst. intros q' Hq'. discriminate.
  - rewrite (process_line_question _ _ _ _ H Hq).
    assert (Hn : unset_assets
                   (mkState [] None
                      (Some (new_question (clean_question (strip raw)))) [] 0 0)).
    { intros q' Hq'. inversion Hq'; subst. split; reflexivity. }
    destruct (current_question st) as [q|] eqn:Eq.
    + destruct (commit_ok images links st q) as [b [l [_ E]]]. rewrite E. simpl.
      intros E'; inversion E'; subst. intros q' Hq'. apply (Hn q' Hq').
    + simpl. intros E'; inversion E'; subst. intros q' Hq'. apply (Hn q' Hq').
  - rewrite (process_line_inner _ _ _ _ H Hq).
    destruct (current_question st) as [q|] eqn:Eq.
    2:{ intros E; inversion E; subst. exact Hu. }
    destruct (Hu q Eq) as [Hi Hv].
    destruct (is_option (strip raw)).
    { intros E; inversion E; subst. intros q' Hq'. simpl in Hq'.
      try rewrite Eq in Hq'. inversion Hq'; subst. auto. }
    destruct (is_answer (strip raw)).
    { intros E; inversion E; subst. intros q' Hq'. simpl in Hq'.
      inversion Hq'; subst. auto. }
    destruct (is_nil (current_options st)) eqn:En; simpl.
    + destruct (is_empty (question q)); simpl.
      * intros E; inversion E; subst. exact Hu.
      * intros E; inversion E; subst. intros q' Hq'. simpl in Hq'.
        inversion Hq'; subst. auto.
    + destruct (nonempty_snoc _ En) as [l' [x E]]. rewrite E.
      rewrite update_last_snoc. simpl.
      intros E'; inversion E'; subst. intros q' Hq'. simpl in Hq'.
      try rewrite Eq in Hq'. inversion Hq'; subst. auto.
Qed.

Lemma run_lines_unset lines : forall st st',
  unset_assets st ->
  run_lines images links st lines = Ok st' ->
  unset_assets st'.
Proof.
  induction lines as [|raw rest IH]; intros st st' Hu; simpl.
  - intros E; inversion E; subst. exact Hu.
  - destruct (process_line images links st raw) as [st1|e] eqn:E; simpl.
    + apply IH. apply (process_line_unset _ _ _ Hu E).
    + discriminate.
Qed.

Lemma initial_unset : unset_assets initial_state.
Proof. intros q H. discriminate. Qed.

End Assets.

(** C4.  Whenever the parser commits a question [q], in the state [st] it has
    reached on some lines, the commit returns (it never raises), the stored
    question has [q]'s text and answer and the accumulated options, its image
    is the path of [images[k]] when [k = image_counter st] is within the list
    and is unset otherwise, and its link is [links[k]] or unset likewise. *)
Theorem commit_correlates_by_index :
  forall (images : list Image) (links : list string) (lines : list string)
         (st : State) (q : Question),
    run_lines images links initial_state lines = Ok st ->
    current_question st = Some q ->
    exists before last,
      (if is_nil (structured_data st)
       then [mkTopic (topic_or_default (current_topic st)) []]
       else structured_data st) = before ++ [last] /\
      commit images links st q =
        Ok (before ++
            [mkTopic (topic last)
               (questions last ++
                [mkQuestion (question q) (current_options st) (answer q)
                   (option_map path (nth_error images (image_counter st)))
                   (nth_error links (image_counter st))])]).
Proof.
  intros images links lines st q Hrun Hq.
  destruct (run_lines_unset images links lines _ _ (initial_unset) Hrun q Hq)
    as [Hi Hv].
  destruct (commit_ok images links st q) as [before [last [E C]]].
  exists before, last. split; [exact E|].
  rewrite C. unfold add_question, correlated. rewrite Hi, Hv.
  destruct (nth_error images (image_counter st));
    destruct (nth_error links (image_counter st)); reflexivity.
Qed.

Lemma commit_correlates_by_index_witness :
  exists before last,
    [mkTopic "General Questions" []] = before ++ [last] /\
    commit [mkImage 0 0 "a.png"] []
           (mkState [] None (Some (new_question "What is x?")) ["p"] 1 0)
           (new_question "What is x?") =
      Ok (before ++
          [mkTopic (topic last)
             (questions last ++
              [mkQuestion "What is x?" ["p"] None (Some "a.png") None])]).
Proof.
  apply (commit_correlates_by_index
           [mkImage 0 0 "a.png"] [] ["1. What is x?"; "(a) p"]
           (mkState [] None (Some (new_question "What is x?")) ["p"] 1 0)
           (new_question "What is x?")).
  - vm_compute. reflexivity.
  - reflexivity.
Defined.

(** ** End-to-end scenarios *)

(** C3.  The kinematics scenario: one topic named "ONE KINEMATICS" with one
    question, its three options in order, answer "b", no image, no link. *)
Example scenario_kinematics :
  parse_mcqs
    (unlines ["UNIT ONE KINEMATICS"; "Q1. What is speed?"; "(a) Distance";
              "(b) Distance/Time"; "(c) Time/Distance"; "Answer: b"])
    [] [] =
  Ok [mkTopic "ONE KINEMATICS"
        [mkQuestion "What is speed?"
           ["Distance"; "Distance/Time"; "Time/Distance"]
           (Some "b") None None]].
Proof. vm_compute. reflexivity. Qed.

(** C1.  A commit made on a topic line does not advance [image_counter]:
    here the first question is committed by the line "UNIT TWO" and the
    second by the end of input, and both are correlated with index 0. *)
Example topic_commit_reuses_index :
  parse_mcqs
    (unlines ["Q1. What is x?"; "UNIT TWO"; "Q2. What is y?"])
    [mkImage 0 0 "a.png"; mkImage 0 1 "b.png"] ["u0"; "u1"] =
  Ok [mkTopic "General Questions"
        [mkQuestion "What is x?" [] None (Some "a.png") (Some "u0")];
      mkTopic "TWO"
        [mkQuestion "What is y?" [] None (Some "a.png") (Some "u0")]].
Proof. vm_compute. reflexivity. Qed.

(** ** Which branch of the loop a raw line takes *)

Lemma keeps_open_cases raw :
  keeps_open raw = true ->
  is_empty (strip raw) = true \/
  (is_topic (strip raw) = Ok false /\ is_question (strip raw) = false).
Proof.
  unfold keeps_open, is_topic_line, is_question_line.
  destruct (line_cases raw) as [H | [H | [[H Hq] | [H Hq]]]].
  - auto.
  - rewrite H, (is_topic_true_nonempty _ H). discriminate.
  - rewrite H, Hq, (is_topic_false_nonempty _ H). discriminate.
  - auto.
Qed.

Lemma not_question_line_cases raw :
  is_question_line raw = false ->
  is_empty (strip raw) = true \/ is_topic (strip raw) = Ok true \/
  (is_topic (strip raw) = Ok false /\ is_question (strip raw) = false).
Proof.
  unfold is_question_line.
  destruct (line_cases raw) as [H | [H | [[H Hq] | [H Hq]]]]; auto.
  rewrite H, Hq, (is_topic_false_nonempty _ H). discriminate.
Qed.

Lemma question_line_blank raw :
  is_empty (strip raw) = true -> is_question_line raw = false.
Proof.
  intros H. unfold is_question_line. rewrite H.
  destruct (is_topic (strip raw)) as [[|]|]; reflexivity.
Qed.

Lemma topic_line_of_is_topic raw :
  is_topic (strip raw) = Ok true -> is_topic_line raw = true.
Proof.
  intros H. unfold is_topic_line. rewrite H, (is_topic_true_nonempty _ H).
  reflexivity.
Qed.

Lemma question_line_of raw :
  is_topic (strip raw) = Ok false -> is_question (strip raw) = true ->
  is_question_line raw = true.
Proof.
  intros Ht Hq. unfold is_question_line.
  rewrite Ht, Hq, (is_topic_false_nonempty _ Ht). reflexivity.
Qed.

(** ** Continuation lines *)

(** C5, as stated, fails on an open question whose text is empty: after the
    line "Q1:" the open question has the empty text, the line "see: above" is a
    continuation line, no option has been read, and the line is discarded
    rather than appended to the question's text. *)
Example continuation_dropped_on_empty_text :
  let st := mkState [] None (Some (new_question EmptyString)) [] 1 0 in
  run_lines [] [] initial_state ["Q1:"] = Ok st /\
  is_topic (strip "see: above") = Ok false /\
  is_question (strip "see: above") = false /\
  is_option (strip "see: above") = false /\
  is_answer (strip "see: above") = false /\
  process_line [] [] st "see: above" = Ok st /\
  process_line [] [] st "see: above" <>
    Ok (mkState [] None (Some (new_question " see: above")) [] 1 0).
Proof.
  vm_compute. repeat split; try reflexivity. discriminate.
Qed.

(** C5, amended.  On a line that is none of Topic, Question, Option, Answer:
    with no question open the state is unchanged; with a question open and
    options read, " " + line is appended to the last option; with a question
    open and no option read, " " + line is appended to the question's text
    when that text is not empty, and the line is discarded when it is. *)
Theorem continuation_folding :
  forall (images : list Image) (links : list string) (st : State) (raw : string),
    is_topic (strip raw) = Ok false ->
    is_question (strip raw) = false ->
    is_option (strip raw) = false ->
    is_answer (strip raw) = false ->
    (current_question st = None ->
     process_line images links st raw = Ok st) /\
    (forall q init o,
        current_question st = Some q ->
        current_options st = init ++ [o] ->
        process_line images links st raw =
          Ok (mkState (structured_data st) (current_topic st) (Some q)
                      (init ++ [(o ++ " " ++ strip raw)%string])
                      (question_counter st) (image_counter st))) /\
    (forall q,
        current_question st = Some q ->
        current_options st = [] ->
        process_line images links st raw =
          Ok (if is_empty (question q) then st
              else mkState (structured_data st) (current_topic st)
                     (Some (mkQuestion (question q ++ " " ++ strip raw)%string
                              (options q) (answer q) (image q) (video_link q)))
                     [] (question_counter st) (image_counter st))).
Proof.
  intros images links st raw Ht Hq Ho Ha.
  rewrite (process_line_inner _ _ _ _ Ht Hq), Ho, Ha.
  repeat split.
  - intros E. rewrite E. reflexivity.
  - intros q init o E Eo. rewrite E, Eo.
    replace (is_nil (init ++ [o])) with false by (destruct init; reflexivity).
    simpl negb. cbv iota. rewrite update_last_snoc. reflexivity.
  - intros q E Eo. rewrite E, Eo. simpl.
    destruct (is_empty (question q)); reflexivity.
Qed.

Lemma continuation_folding_witness :
  let st := mkState [] None (Some (new_question "What is x?")) ["p"] 1 0 in
  process_line [] [] st "see: above" =
    Ok (mkState [] None (Some (new_question "What is x?")) ["p see: above"] 1 0).
Proof.
  exact (proj1 (proj2 (continuation_folding [] []
           (mkState [] None (Some (new_question "What is x?")) ["p"] 1 0)
           "see: above" eq_refl eq_refl eq_refl eq_refl))
         (new_question "What is x?") [] "p" eq_refl eq_refl).
Defined.

(** ** Answer lines *)

Section Answers.

Variable images : list Image.
Variable links : list string.

Lemma process_line_keeps_open st raw q :
  current_question st = Some q ->
  keeps_open raw = true ->
  exists st' q',
    process_line images links st raw = Ok st' /\
    current_question st' = Some q' /\
    answer q' = if is_answer_line raw
                then Some (clean_answer (strip raw)) else answer q.
Proof.
  intros Eq Hk. unfold is_answer_line. rewrite Hk.
  destruct (keeps_open_cases raw Hk) as [Hb | [Ht Hq]].
  - rewrite (process_line_blank _ _ _ _ Hb), Hb. simpl. eauto.
  - rewrite (process_line_inner _ _ _ _ Ht Hq), Eq.
    rewrite (is_topic_false_nonempty _ Ht). simpl.
    destruct (is_option (strip raw)); simpl.
    { eexists; eexists; split; [reflexivity|]. simpl. split; [first [exact Eq | reflexivity] | reflexivity]. }
    destruct (is_answer (strip raw)); simpl.
    { eexists; eexists; split; [reflexivity|]. simpl. split; reflexivity. }
    destruct (is_nil (current_options st)) eqn:En; simpl.
    + destruct (is_empty (question q)); simpl.
      * eexists; eexists; split; [reflexivity|]. split; [first [exact Eq | reflexivity] | reflexivity].
      * eexists; eexists; split; [reflexivity|]. simpl. split; reflexivity.
    + destruct (nonempty_snoc _ En) as [l' [x E]]. rewrite E.
      rewrite update_last_snoc. simpl.
      eexists; eexists; split; [reflexivity|]. simpl. split; [first [exact Eq | reflexivity] | reflexivity].
Qed.

Lemma run_lines_keeps_open block : forall st q,
  current_question st = Some q ->
  Forall (fun raw => keeps_open raw = true) block ->
  exists st' q',
    run_lines images links st block = Ok st' /\
    current_question st' = Some q' /\
    answer q' = match last_answer_line block with
                | Some raw => Some (clean_answer (strip raw))
                | None => answer q
                end.
Proof.
  induction block as [|raw rest IH]; intros st q Eq Hall.
  - exists st, q. simpl. auto.
  - inversion Hall as [|? ? Hk Hrest]; subst.
    destruct (process_line_keeps_open st raw q Eq Hk) as [st1 [q1 [E1 [Eq1 A1]]]].
    destruct (IH st1 q1 Eq1 Hrest) as [st' [q' [E' [Eq' A']]]].
    exists st', q'. simpl. rewrite E1. simpl. split; [exact E'|]. split; [exact Eq'|].
    rewrite A'. destruct (last_answer_line rest); [reflexivity|].
    rewrite A1. destruct (is_answer_line raw); reflexivity.
Qed.

End Answers.

(** C2, as stated, fails: of two Answer lines read while the question is
    open, the second one is stored, not the first. *)
Example later_answer_overwrites :
  exists q,
    parse_mcqs (unlines ["Q1. What is x?"; "Answer: a"; "Answer: b"]) [] [] =
      Ok [mkTopic "General Questions" [q]] /\
    clean_answer (strip "Answer: a") = "a" /\
    is_answer_line "Answer: a" = true /\
    is_answer_line "Answer: b" = true /\
    answer q = Some "b" /\
    answer q <> Some (clean_answer (strip "Answer: a")).
Proof.
  exists (mkQuestion "What is x?" [] (Some "b") None None).
  vm_compute. repeat split; try reflexivity. discriminate.
Qed.

(** C2, amended.  While a question stays open (the lines read are blank or
    are neither Topic nor Question lines), its answer field is the
    normalised text of the LAST line that reached the answer branch, or what
    it was before when there is no such line; the commit that follows stores
    the question with that answer. *)
Theorem last_answer_wins :
  forall (images : list Image) (links : list string) (block : list string)
         (st : State) (q : Question),
    current_question st = Some q ->
    Forall (fun raw => keeps_open raw = true) block ->
    exists st' q' before last stored,
      run_lines images links st block = Ok st' /\
      current_question st' = Some q' /\
      commit images links st' q' =
        Ok (before ++ [mkTopic (topic last) (questions last ++ [stored])]) /\
      answer stored = answer q' /\
      answer q' = match last_answer_line block with
                  | Some raw => Some (clean_answer (strip raw))
                  | None => answer q
                  end.
Proof.
  intros images links block st q Eq Hall.
  destruct (run_lines_keeps_open images links block st q Eq Hall)
    as [st' [q' [E [Eq' A]]]].
  destruct (commit_ok images links st' q') as [before [last [_ C]]].
  exists st', q', before, last,
    (correlated q' (current_options st') images links (image_counter st')).
  repeat split; auto.
Qed.

Lemma last_answer_wins_witness :
  exists st' q' before last stored,
    run_lines [] [] (mkState [] None (Some (new_question "What is x?")) [] 1 0)
              ["Answer: a"; EmptyString; "Answer: b"] = Ok st' /\
    current_question st' = Some q' /\
    commit [] [] st' q' =
      Ok (before ++ [mkTopic (topic last) (questions last ++ [stored])]) /\
    answer stored = answer q' /\
    answer q' = Some "b".
Proof.
  destruct (last_answer_wins [] [] ["Answer: a"; EmptyString; "Answer: b"]
              (mkState [] None (Some (new_question "What is x?")) [] 1 0)
              (new_question "What is x?"))
    as [st' [q' [before [last [stored [R [Q [C [S A]]]]]]]]].
  - reflexivity.
  - repeat (constructor; [vm_compute; reflexivity|]). constructor.
  - vm_compute in A. exists st', q', before, last, stored. auto.
Defined.

(** ** Documents without questions *)

Section NoQuestion.

Variable images : list Image.
Variable links : list string.

Lemma process_line_no_question st raw :
  no_questions_yet st ->
  is_question_line raw = false ->
  exists st', process_line images links st raw = Ok st' /\ no_questions_yet st'.
Proof.
  intros [Hc Hs] Hn.
  destruct (not_question_line_cases raw Hn) as [Hb | [Ht | [Ht Hq]]].
  - rewrite (process_line_blank _ _ _ _ Hb). exists st. split; [reflexivity|].
    split; assumption.
  - rewrite (process_line_topic _ _ _ _ Ht), Hc. simpl.
    eexists. split; [reflexivity|]. split; simpl; [exact Hc|].
    apply Forall_app. split; [exact Hs|]. constructor; [reflexivity | constructor].
  - rewrite (process_line_inner _ _ _ _ Ht Hq), Hc.
    exists st. split; [reflexivity|]. split; assumption.
Qed.

Lemma run_lines_no_question lines : forall st,
  no_questions_yet st ->
  Forall (fun raw => is_question_line raw = false) lines ->
  exists st', run_lines images links st lines = Ok st' /\ no_questions_yet st'.
Proof.
  induction lines as [|raw rest IH]; intros st Hn Hall.
  - exists st. simpl. auto.
  - inversion Hall as [|? ? Hr Hrest]; subst.
    destruct (process_line_no_question st raw Hn Hr) as [st1 [E1 Hn1]].
    destruct (IH st1 Hn1 Hrest) as [st' [E' Hn']].
    exists st'. simpl. rewrite E1. simpl. auto.
Qed.

End NoQuestion.

Lemma filter_no_questions (sd : list Topic) :
  Forall (fun t => questions t = []) sd -> filter has_questions sd = [].
Proof.
  induction 1 as [|t sd Ht _ IH]; simpl.
  - reflexivity.
  - unfold has_questions at 1. rewrite Ht. simpl. exact IH.
Qed.

(** C8.  When no line of the text reaches the question branch, [parse_mcqs]
    returns the empty list. *)
Theorem no_question_no_output :
  forall (text : string) (images : list Image) (links : list string),
    Forall (fun raw => is_question_line raw = false) (split_on newline text) ->
    parse_mcqs text images links = Ok [].
Proof.
  intros text images links Hall. unfold parse_mcqs, parse_raw.
  destruct (run_lines_no_question images links (split_on newline text)
              initial_state) as [st [E [Hc Hs]]].
  - split; [reflexivity | constructor].
  - exact Hall.
  - rewrite E. simpl. unfold finish. rewrite Hc. simpl.
    unfold assemble. rewrite (filter_no_questions _ Hs). reflexivity.
Qed.

Lemma no_question_no_output_witness :
  parse_mcqs (unlines ["UNIT ONE"; "(a) stray option"; EmptyString; "Answer: b"; "Notes"])
             [mkImage 0 0 "a.png"] ["u0"] = Ok [].
Proof.
  apply (no_question_no_output
           (unlines ["UNIT ONE"; "(a) stray option"; EmptyString; "Answer: b"; "Notes"])
           [mkImage 0 0 "a.png"] ["u0"]).
  replace (split_on newline
             (unlines ["UNIT ONE"; "(a) stray option"; EmptyString; "Answer: b"; "Notes"]))
    with ["UNIT ONE"; "(a) stray option"; EmptyString; "Answer: b"; "Notes"]
    by (vm_compute; reflexivity).
  repeat (constructor; [vm_compute; reflexivity|]). constructor.
Defined.

(** ** Topic records that are no longer last *)

Lemma is_topic_line_true raw :
  is_topic_line raw = true -> is_topic (strip raw) = Ok true.
Proof.
  unfold is_topic_line.
  destruct (is_topic (strip raw)) as [[|]|]; [reflexivity | discriminate ..].
Qed.

Section Frozen.

Variable images : list Image.
Variable links : list string.

Lemma extends_snoc pre sd t : extends pre sd -> extends pre (sd ++ [t]).
Proof.
  intros [tail [Hn E]]. exists (tail ++ [t]). split.
  - destruct tail; reflexivity.
  - rewrite E. apply eq_sym, app_assoc.
Qed.

Lemma commit_extends pre st q sd' :
  extends pre (structured_data st) ->
  commit images links st q = Ok sd' ->
  extends pre sd'.
Proof.
  intros [tail [Hn E]] C.
  destruct (commit_ok images links st q) as [before [last [B C']]].
  rewrite C' in C. inversion C; subst sd'. clear C.
  destruct (nonempty_snoc tail Hn) as [tail' [x Et]].
  rewrite E, Et in B.
  replace (is_nil (pre ++ tail' ++ [x])) with false in B
    by (destruct pre; destruct tail'; reflexivity).
  rewrite app_assoc in B. apply app_inj_tail in B. destruct B as [B1 B2].
  exists (tail' ++ [add_question
                     (correlated q (current_options st) images links
                                 (image_counter st)) last]).
  split.
  - destruct tail'; reflexivity.
  - rewrite <- B1. apply eq_sym, app_assoc.
Qed.

Lemma process_line_extends pre st raw st' :
  extends pre (structured_data st) ->
  process_line images links st raw = Ok st' ->
  extends pre (structured_data st').
Proof.
  intros Hx.
  destruct (line_cases raw) as [H | [H | [[H Hq] | [H Hq]]]].
  - rewrite (process_line_blank _ _ _ _ H). intros E; inversion E; subst; exact Hx.
  - rewrite (process_line_topic _ _ _ _ H).
    destruct (current_question st) as [q|].
    + destruct (commit images links st q) as [sd'|] eqn:C; simpl; [|discriminate].
      intros E; inversion E; subst; simpl.
      apply extends_snoc. apply (commit_extends pre st q sd' Hx C).
    + simpl. intros E; inversion E; subst; simpl. apply extends_snoc, Hx.
  - rewrite (process_line_question _ _ _ _ H Hq).
    destruct (current_question st) as [q|].
    + destruct (commit images links st q) as [sd'|] eqn:C; simpl; [|discriminate].
      intros E; inversion E; subst; simpl.
      apply (commit_extends pre st q sd' Hx C).
    + simpl. intros E; inversion E; subst; simpl. exact Hx.
  - rewrite (process_line_inner _ _ _ _ H Hq).
    destruct (current_question st) as [q|].
    2:{ intros E; inversion E; subst; exact Hx. }
    destruct (is_option (strip raw)).
    { intros E; inversion E; subst; exact Hx. }
    destruct (is_answer (strip raw)).
    { intros E; inversion E; subst; exact Hx. }
    destruct (negb (is_nil (current_options st))).
    { destruct (update_last _ (current_options st)); simpl; [|discriminate].
      intros E; inversion E; subst; exact Hx. }
    destruct (negb (is_empty (question q)));
      intros E; inversion E; subst; exact Hx.
Qed.

Lemma run_lines_extends pre lines : forall st st',
  extends pre (structured_data st) ->
  run_lines images links st lines = Ok st' ->
  extends pre (structured_data st').
Proof.
  induction lines as [|raw rest IH]; intros st st' Hx; simpl.
  - intros E; inversion E; subst; exact Hx.
  - destruct (process_line images links st raw) as [st1|] eqn:E; simpl;
      [|discriminate].
    apply IH. apply (process_line_extends pre st raw st1 Hx E).
Qed.

Lemma finish_extends pre st sd :
  extends pre (structured_data st) ->
  finish images links st = Ok sd ->
  extends pre sd.
Proof.
  intros Hx. unfold finish. destruct (current_question st) as [q|].
  - apply commit_extends, Hx.
  - intros E; inversion E; subst; exact Hx.
Qed.

(** A topic line closes the open question and appends its own record. *)
Lemma process_line_topic_shape st raw :
  is_topic (strip raw) = Ok true ->
  exists st' before,
    process_line images links st raw = Ok st' /\
    current_question st' = None /\
    structured_data st' = before ++ [mkTopic (clean_topic (strip raw)) []].
Proof.
  intros H. rewrite (process_line_topic _ _ _ _ H).
  destruct (current_question st) as [q|] eqn:Eq.
  - destruct (commit_ok images links st q) as [b [l [_ C]]]. rewrite C. simpl.
    eexists; eexists; split; [reflexivity|]. simpl. split; reflexivity.
  - simpl. eexists; eexists; split; [reflexivity|]. simpl. split; [exact Eq | reflexivity].
Qed.

Lemma run_lines_blank blanks : forall st,
  Forall (fun raw => is_empty (strip raw) = true) blanks ->
  run_lines images links st blanks = Ok st.
Proof.
  induction blanks as [|raw rest IH]; intros st Hall; simpl.
  - reflexivity.
  - inversion Hall as [|? ? Hb Hrest]; subst.
    rewrite (process_line_blank _ _ _ _ Hb). simpl. apply IH, Hrest.
Qed.

(** With topic records in store, the commit rewrites the last one. *)
Lemma commit_last st q sd r :
  structured_data st = sd ++ [r] ->
  commit images links st q =
    Ok (sd ++ [add_question
                 (correlated q (current_options st) images links
                             (image_counter st)) r]).
Proof.
  intros E. destruct (commit_ok images links st q) as [b [l [B C]]].
  rewrite E in B.
  replace (is_nil (sd ++ [r])) with false in B by (destruct sd; reflexivity).
  apply app_inj_tail in B. destruct B; subst. exact C.
Qed.

Lemma question_of_line_correlated q opts k raw :
  question_of_line q raw ->
  question_of_line (correlated q opts images links k) raw.
Proof. intros [rest E]. exists rest. exact E. Qed.

(** A line that is no topic line leaves the last record last, and the
    questions of that record follow the question lines read since it was
    appended. *)
Lemma process_line_segment sd name st raw st' qs done :
  is_topic_line raw = false ->
  structured_data st = sd ++ [mkTopic name qs] ->
  Forall2 question_of_line (qs ++ open_questions st) done ->
  process_line images links st raw = Ok st' ->
  exists qs',
    structured_data st' = sd ++ [mkTopic name qs'] /\
    Forall2 question_of_line (qs' ++ open_questions st')
            (done ++ filter is_question_line [raw]).
Proof.
  intros Hn Hsd Hi. unfold open_questions in *. cbn [filter].
  destruct (line_cases raw) as [H | [H | [[H Hq] | [H Hq]]]].
  - rewrite (process_line_blank _ _ _ _ H), (question_line_blank _ H).
    intros E; inversion E; subst. exists qs. rewrite app_nil_r. auto.
  - rewrite (topic_line_of_is_topic _ H) in Hn. discriminate.
  - rewrite (process_line_question _ _ _ _ H Hq), (question_line_of _ H Hq).
    assert (Rn : question_of_line (new_question (clean_question (strip raw))) raw).
    { exists EmptyString. simpl. rewrite str_app_empty_r. reflexivity. }
    destruct (current_question st) as [q|] eqn:Eq.
    + rewrite (commit_last st q sd _ Hsd). simpl.
      intros E; inversion E; subst; simpl.
      exists (qs ++ [correlated q (current_options st) images links
                                (image_counter st)]).
      split; [reflexivity|].
      destruct (Forall2_snoc_inv _ _ _ _ Hi) as [m [y [Em [Hm Rq]]]].
      rewrite Em. apply Forall2_app.
      * apply Forall2_app; [exact Hm|]. constructor; [|constructor].
        apply question_of_line_correlated, Rq.
      * constructor; [exact Rn | constructor].
    + simpl. intros E; inversion E; subst; simpl.
      exists qs. split; [exact Hsd|].
      rewrite app_nil_r in Hi. apply Forall2_app; [exact Hi|].
      constructor; [exact Rn | constructor].
  - rewrite (process_line_inner _ _ _ _ H Hq).
    replace (is_question_line raw) with false
      by (unfold is_question_line; rewrite H, Hq, andb_false_r; reflexivity).
    rewrite app_nil_r.
    destruct (current_question st) as [q|] eqn:Eq.
    2:{ intros E; inversion E; subst. rewrite Eq. exists qs. auto. }
    destruct (is_option (strip raw)).
    { intros E; inversion E; subst; simpl. exists qs. auto. }
    destruct (Forall2_snoc_inv _ _ _ _ Hi) as [m [y [Em [Hm [rest Rq]]]]].
    destruct (is_answer (strip raw)).
    { intros E; inversion E; subst; simpl. exists qs. split; [exact Hsd|].
      apply Forall2_app; [exact Hm|]. constructor; [|constructor].
      exists rest. exact Rq. }
    destruct (negb (is_nil (current_options st))).
    { destruct (update_last _ (current_options st)); simpl; [|discriminate].
      intros E; inversion E; subst; simpl. exists qs.
      split; [exact Hsd | exact Hi]. }
    destruct (negb (is_empty (question q))).
    + intros E; inversion E; subst; simpl. exists qs. split; [exact Hsd|].
      apply Forall2_app; [exact Hm|]. constructor; [|constructor].
      exists (rest ++ " " ++ strip raw)%string. simpl.
      rewrite Rq, str_app_assoc. reflexivity.
    + intros E; inversion E; subst. rewrite Eq. exists qs.
      split; [exact Hsd | exact Hi].
Qed.

Lemma run_lines_segment sd name seg : forall st st' qs done,
  Forall (fun raw => is_topic_line raw = false) seg ->
  structured_data st = sd ++ [mkTopic name qs] ->
  Forall2 question_of_line (qs ++ open_questions st) done ->
  run_lines images links st seg = Ok st' ->
  exists qs',
    structured_data st' = sd ++ [mkTopic name qs'] /\
    Forall2 question_of_line (qs' ++ open_questions st')
            (done ++ filter is_question_line seg).
Proof.
  induction seg as [|raw rest IH]; intros st st' qs done Hall Hsd Hi; simpl.
  - intros E; inversion E; subst. exists qs. rewrite app_nil_r. auto.
  - inversion Hall as [|? ? Hn Hrest]; subst.
    destruct (process_line images links st raw) as [st1|] eqn:E1; simpl;
      [|discriminate].
    intros E.
    destruct (process_line_segment sd name st raw st1 qs done Hn Hsd Hi E1)
      as [qs1 [Hsd1 Hi1]].
    destruct (IH st1 st' qs1 _ Hrest Hsd1 Hi1 E) as [qs' [Hsd' Hi']].
    exists qs'. split; [exact Hsd'|].
    cbn [filter] in Hi1, Hi'. rewrite <- app_assoc in Hi'.
    destruct (is_question_line raw); exact Hi'.
Qed.

(** The next topic line, or the end of the input, closes the record: the
    open question, if any, is its last one. *)
Lemma segment_closed sd name rest st st' final qs done :
  match rest with
  | [] => True
  | t :: _ => is_topic_line t = true
  end ->
  structured_data st = sd ++ [mkTopic name qs] ->
  Forall2 question_of_line (qs ++ open_questions st) done ->
  run_lines images links st rest = Ok st' ->
  finish images links st' = Ok final ->
  exists qs' after,
    final = sd ++ mkTopic name qs' :: after /\
    Forall2 question_of_line qs' done.
Proof.
  intros Hrest Hsd Hi. unfold open_questions in Hi.
  destruct rest as [|t rest]; simpl.
  - intros E; inversion E; subst st'. unfold finish.
    destruct (current_question st) as [q|] eqn:Eq.
    + rewrite (commit_last st q sd _ Hsd). intros F; inversion F; subst.
      eexists; exists []. split; [reflexivity|]. simpl.
      destruct (Forall2_snoc_inv _ _ _ _ Hi) as [m [y [Em [Hm Rq]]]].
      rewrite Em. apply Forall2_app; [exact Hm|]. constructor; [|constructor].
      apply question_of_line_correlated, Rq.
    + intros F; inversion F; subst. exists qs, []. split; [exact Hsd|].
      rewrite app_nil_r in Hi. exact Hi.
  - apply is_topic_line_true in Hrest.
    rewrite (process_line_topic _ _ _ _ Hrest).
    destruct (current_question st) as [q|] eqn:Eq.
    + rewrite (commit_last st q sd _ Hsd). simpl. intros E F.
      match type of E with
      | run_lines _ _ ?s _ = _ =>
          assert (X : extends
                        (sd ++ [add_question
                                  (correlated q (current_options st) images
                                              links (image_counter st))
                                  (mkTopic name qs)])
                        (structured_data s))
      end.
      { simpl. eexists. split; [|reflexivity]. reflexivity. }
      pose proof (run_lines_extends _ _ _ _ X E) as X'.
      destruct (finish_extends _ _ _ X' F) as [after [_ Ef]].
      eexists; exists after. split.
      * rewrite Ef, <- app_assoc. reflexivity.
      * simpl.
        destruct (Forall2_snoc_inv _ _ _ _ Hi) as [m [y [Em [Hm Rq]]]].
        rewrite Em. apply Forall2_app; [exact Hm|]. constructor; [|constructor].
        apply question_of_line_correlated, Rq.
    + simpl. intros E F.
      match type of E with
      | run_lines _ _ ?s _ = _ =>
          assert (X : extends (sd ++ [mkTopic name qs]) (structured_data s))
      end.
      { simpl. rewrite Hsd. eexists. split; [|reflexivity]. reflexivity. }
      pose proof (run_lines_extends _ _ _ _ X E) as X'.
      destruct (finish_extends _ _ _ X' F) as [after [_ Ef]].
      exists qs, after. split.
      * rewrite Ef, <- app_assoc. reflexivity.
      * rewrite app_nil_r in Hi. exact Hi.
Qed.

End Frozen.

Lemma until_topic_split post :
  exists rest,
    post = until_topic post ++ rest /\
    Forall (fun raw => is_topic_line raw = false) (until_topic post) /\
    match rest with
    | [] => True
    | t :: _ => is_topic_line t = true
    end.
Proof.
  induction post as [|raw post IH]; simpl.
  - exists []. repeat split. constructor.
  - destruct (is_topic_line raw) eqn:E.
    + exists (raw :: post). repeat split; [constructor | exact E].
    + destruct IH as [rest [A [B C]]]. exists rest. split; [|split].
      * simpl. rewrite <- A. reflexivity.
      * constructor; [exact E | exact B].
      * exact C.
Qed.

Lemma assemble_drop_empty (before after : list Topic) (name : string) :
  assemble (before ++ mkTopic name [] :: after) = assemble (before ++ after).
Proof.
  unfold assemble. rewrite !filter_app. reflexivity.
Qed.

(** C6, as stated, fails: of two adjacent topic lines the second one's
    record takes the questions that follow, and is in the output. *)
Example second_topic_record_kept :
  is_topic_line "UNIT ONE" = true /\
  is_topic_line "UNIT TWO" = true /\
  clean_topic (strip "UNIT TWO") = "TWO" /\
  parse_mcqs (unlines ["UNIT ONE"; "UNIT TWO"; "Q1. What is x?"]) [] [] =
    Ok [mkTopic "TWO" [mkQuestion "What is x?" [] None None None]].
Proof. vm_compute. repeat split; reflexivity. Qed.

(** C6, amended.  When a topic line is followed by another topic line, with
    at most blank lines in between, the record that the FIRST of the two
    appended keeps an empty question list to the end and is dropped from the
    output.  The record of the second one comes right after it and receives
    the questions that follow: it holds one question for each question line
    between the second topic line and the next topic line, or the end of
    the input, in the order of these lines, and the text of each starts with
    the normalised text of its line. *)
Theorem first_of_adjacent_topics_dropped :
  forall (images : list Image) (links : list string) (text : string)
         (pre : list string) (t1 : string) (blanks : list string)
         (t2 : string) (post : list string),
    split_on newline text = pre ++ t1 :: blanks ++ t2 :: post ->
    is_topic_line t1 = true ->
    Forall (fun raw => is_empty (strip raw) = true) blanks ->
    is_topic_line t2 = true ->
    exists st1 before qs after,
      run_lines images links initial_state (pre ++ [t1]) = Ok st1 /\
      structured_data st1 = before ++ [mkTopic (clean_topic (strip t1)) []] /\
      parse_raw (split_on newline text) images links =
        Ok (before ++ mkTopic (clean_topic (strip t1)) []
                   :: mkTopic (clean_topic (strip t2)) qs :: after) /\
      Forall2 question_of_line qs
              (filter is_question_line (until_topic post)) /\
      parse_mcqs text images links =
        Ok (assemble (before ++ mkTopic (clean_topic (strip t2)) qs :: after)).
Proof.
  intros images links text pre t1 blanks t2 post Hs H1 Hb H2.
  apply is_topic_line_true in H1. apply is_topic_line_true in H2.
  destruct (run_lines_ok images links pre initial_state) as [st0 E0].
  destruct (process_line_topic_shape images links st0 t1 H1)
    as [st1 [before [E1 [Q1 S1]]]].
  assert (R1 : run_lines images links initial_state (pre ++ [t1]) = Ok st1).
  { rewrite run_lines_app, E0. simpl. rewrite E1. reflexivity. }
  destruct (process_line_ok images links st1 t2) as [st2 E2].
  assert (S2 : structured_data st2 =
               (before ++ [mkTopic (clean_topic (strip t1)) []])
               ++ [mkTopic (clean_topic (strip t2)) []] /\
               current_question st2 = None).
  { rewrite (process_line_topic _ _ _ _ H2), Q1 in E2. simpl in E2.
    inversion E2; subst st2. simpl. rewrite S1. split; [reflexivity | exact Q1]. }
  destruct S2 as [S2 Q2].
  destruct (until_topic_split post) as [rest [Ep [Hseg Hrest]]].
  destruct (run_lines_ok images links (until_topic post) st2) as [st3 E3].
  destruct (run_lines_ok images links rest st3) as [st4 E4].
  destruct (finish_ok images links st4) as [sd F].
  assert (I2 : Forall2 question_of_line ([] ++ open_questions st2) []).
  { unfold open_questions. rewrite Q2. constructor. }
  destruct (run_lines_segment images links _ _ _ st2 st3 [] [] Hseg S2 I2 E3)
    as [qs3 [S3 I3]].
  destruct (segment_closed images links _ _ rest st3 st4 sd qs3 _
              Hrest S3 I3 E4 F) as [qs [after [Esd Hqs]]].
  assert (R : parse_raw (split_on newline text) images links = Ok sd).
  { unfold parse_raw. rewrite Hs, Ep.
    replace (pre ++ t1 :: blanks ++ t2 :: until_topic post ++ rest)
      with ((pre ++ [t1]) ++ blanks ++ [t2] ++ until_topic post ++ rest)
      by (rewrite <- app_assoc; reflexivity).
    rewrite run_lines_app, R1. simpl.
    rewrite run_lines_app, (run_lines_blank images links blanks st1 Hb). simpl.
    rewrite E2. simpl. rewrite run_lines_app, E3. simpl. rewrite E4. simpl.
    exact F. }
  exists st1, before, qs, after. split; [exact R1|]. split; [exact S1|].
  rewrite <- app_assoc in Esd. simpl in Esd. split; [|split].
  - rewrite R, Esd. reflexivity.
  - exact Hqs.
  - unfold parse_mcqs. rewrite R. simpl. rewrite Esd, assemble_drop_empty.
    reflexivity.
Qed.

Lemma first_of_adjacent_topics_dropped_witness :
  exists st1 before qs after,
    run_lines [] [] initial_state (["Q0. What is w?"] ++ ["UNIT ONE"]) = Ok st1 /\
    structured_data st1 =
      before ++ [mkTopic (clean_topic (strip "UNIT ONE")) []] /\
    parse_raw
      (split_on newline
         (unlines ["Q0. What is w?"; "UNIT ONE"; EmptyString; "UNIT TWO";
                   "Q1. What is x?"; "(a) one"; "Q2. What is y?";
                   "UNIT THREE"; "Q3. What is z?"]))
      [] [] =
      Ok (before ++ mkTopic (clean_topic (strip "UNIT ONE")) []
                 :: mkTopic (clean_topic (strip "UNIT TWO")) qs :: after) /\
    Forall2 question_of_line qs
            (filter is_question_line
                    (until_topic ["Q1. What is x?"; "(a) one"; "Q2. What is y?";
                                  "UNIT THREE"; "Q3. What is z?"])) /\
    parse_mcqs
      (unlines ["Q0. What is w?"; "UNIT ONE"; EmptyString; "UNIT TWO";
                "Q1. What is x?"; "(a) one"; "Q2. What is y?";
                "UNIT THREE"; "Q3. What is z?"])
      [] [] =
      Ok (assemble (before ++ mkTopic (clean_topic (strip "UNIT TWO")) qs :: after)).
Proof.
  apply (first_of_adjacent_topics_dropped [] []
           (unlines ["Q0. What is w?"; "UNIT ONE"; EmptyString; "UNIT TWO";
                     "Q1. What is x?"; "(a) one"; "Q2. What is y?";
                     "UNIT THREE"; "Q3. What is z?"])
           ["Q0. What is w?"] "UNIT ONE" [EmptyString] "UNIT TWO"
           ["Q1. What is x?"; "(a) one"; "Q2. What is y?";
            "UNIT THREE"; "Q3. What is z?"]).
  - vm_compute. reflexivity.
  - vm_compute. reflexivity.
  - repeat (constructor; [vm_compute; reflexivity|]). constructor.
  - vm_compute. reflexivity.
Defined.

(** ** Normalisers applied twice *)

Lemma rstrip_idempotent s : rstrip (rstrip s) = rstrip s.
Proof.
  induction s as [|c s IH]; simpl.
  - reflexivity.
  - destruct (Char.isspace c && is_empty (rstrip s)) eqn:E; simpl.
    + reflexivity.
    + rewrite IH, E. reflexivity.
Qed.

Lemma lstrip_fixed s :
  match s with
  | EmptyString => True
  | String c _ => Char.isspace c = false
  end -> lstrip s = s.
Proof. destruct s as [|c s]; simpl; [reflexivity|]. intros H. rewrite H. reflexivity. Qed.

Lemma lstrip_head s :
  match lstrip s with
  | EmptyString => True
  | String c _ => Char.isspace c = false
  end.
Proof.
  induction s as [|c s IH]; simpl.
  - exact I.
  - destruct (Char.isspace c) eqn:E; [exact IH | exact E].
Qed.

Lemma rstrip_head s :
  match s with
  | EmptyString => True
  | String c _ => Char.isspace c = false
  end ->
  match rstrip s with
  | EmptyString => True
  | String c _ => Char.isspace c = false
  end.
Proof.
  destruct s as [|c s]; simpl; [auto|]. intros H. rewrite H. simpl. exact H.
Qed.

Lemma strip_idempotent s : strip (strip s) = strip s.
Proof.
  unfold strip.
  rewrite (lstrip_fixed (rstrip (lstrip s))).
  - apply rstrip_idempotent.
  - apply rstrip_head, lstrip_head.
Qed.

Lemma sub_prefix_no_match ic r s :
  Re.matches ic r s = false -> Re.sub_prefix ic r s = s.
Proof.
  unfold Re.matches, Re.sub_prefix.
  destruct (Re.rmatch ic r s); [discriminate | reflexivity].
Qed.

(** C7, as stated, fails for each of the three normalisers: one application
    strips one marker, and what is left may start with another. *)
Example clean_twice_differs :
  (clean_option "(a) (b) x" = "(b) x" /\
   is_option "(b) x" = true /\
   clean_option (clean_option "(a) (b) x") = "x") /\
  (clean_question "Q1. Q2. x" = "Q2. x" /\
   is_question "Q2. x" = true /\
   clean_question (clean_question "Q1. Q2. x") = "x") /\
  (clean_answer "Answer: answer: b" = "answer: b" /\
   is_answer "answer: b" = true /\
   clean_answer (clean_answer "Answer: answer: b") = "b") /\
  clean_option (clean_option "(a) (b) x") <> clean_option "(a) (b) x" /\
  clean_question (clean_question "Q1. Q2. x") <> clean_question "Q1. Q2. x" /\
  clean_answer (clean_answer "Answer: answer: b") <> clean_answer "Answer: answer: b".
Proof.
  vm_compute. repeat split; try reflexivity; discriminate.
Qed.

(** C7, amended.  A normaliser applied to its own output is a no-op whenever
    that output does not start with a marker the normaliser strips. *)
Theorem clean_idempotent_without_marker :
  forall x y z : string,
    Re.matches false option_prefix (clean_option x) = false ->
    Re.matches true question_word_prefix (clean_question y) = false ->
    Re.matches false question_number_prefix (clean_question y) = false ->
    Re.matches true answer_prefix (clean_answer z) = false ->
    clean_option (clean_option x) = clean_option x /\
    clean_question (clean_question y) = clean_question y /\
    clean_answer (clean_answer z) = clean_answer z.
Proof.
  intros x y z Ho Hw Hn Ha. repeat split.
  - unfold clean_option at 1. rewrite (sub_prefix_no_match _ _ _ Ho).
    unfold clean_option. apply strip_idempotent.
  - unfold clean_question at 1. cbv zeta.
    rewrite (sub_prefix_no_match _ _ _ Hw), (sub_prefix_no_match _ _ _ Hn).
    unfold clean_question. apply strip_idempotent.
  - unfold clean_answer at 1. rewrite (sub_prefix_no_match _ _ _ Ha).
    unfold clean_answer. apply strip_idempotent.
Qed.

Lemma clean_idempotent_without_marker_witness :
  clean_option (clean_option "(a) Distance") = clean_option "(a) Distance" /\
  clean_question (clean_question "Q1. What is speed?") =
    clean_question "Q1. What is speed?" /\
  clean_answer (clean_answer "Answer: b") = clean_answer "Answer: b".
Proof.
  apply (clean_idempotent_without_marker
           "(a) Distance" "Q1. What is speed?" "Answer: b");
    vm_compute; reflexivity.
Defined.

(** ** The driver *)

Lemma pages_loop_raises temp_dir doc : forall page_num full_text images links p e,
  In p doc -> get_text p = Raise e ->
  exists e', pages_loop temp_dir page_num doc full_text images links = Raise e'.
Proof.
  induction doc as [|page rest IH]; intros page_num full_text images links p e Hin He.
  - destruct Hin.
  - simpl. destruct Hin as [-> | Hin].
    + rewrite He. simpl. eauto.
    + destruct (get_text page); simpl; [|eauto].
      apply (IH _ _ _ _ p e Hin He).
Qed.

(** C9, as stated, fails: a document that cannot be opened, or a page whose
    text cannot be read, makes the body of the [try] raise, the handler
    turns that into the empty list, and the caller gets the value it gets for
    a readable document without questions. *)
Example read_error_reported_as_empty :
  let cannot_open := fun _ : string => Raise (RuntimeError "cannot open") in
  let bad_page :=
    fun _ : string =>
      Ok (mkDocument [mkPage (Raise (RuntimeError "no text")) (Ok []) (Ok [])]
                     (Ok tt)) in
  let no_pages := fun _ : string => Ok (mkDocument [] (Ok tt)) in
  extract_body cannot_open "f.pdf" "/tmp" = Raise (RuntimeError "cannot open") /\
  extract_body bad_page "f.pdf" "/tmp" = Raise (RuntimeError "no text") /\
  extract_mcqs_from_pdf cannot_open "f.pdf" "/tmp" = Ok [] /\
  extract_mcqs_from_pdf bad_page "f.pdf" "/tmp" = Ok [] /\
  extract_mcqs_from_pdf no_pages "f.pdf" "/tmp" = Ok [].
Proof. vm_compute. repeat split; reflexivity. Qed.

(** C9, amended.  When [fitz.open] raises, or [get_text] raises on some
    page, or [close] raises, [extract_mcqs_from_pdf] does not raise: it
    returns the empty list, the value that also reports that no question
    was found. *)
Theorem collaborator_failure_yields_empty :
  forall (fitz_open : string -> result Document) (pdf_path temp_dir : string),
    (exists e, fitz_open pdf_path = Raise e) \/
    (exists doc,
        fitz_open pdf_path = Ok doc /\
        ((exists p e, In p (pages doc) /\ get_text p = Raise e) \/
         (exists e, close doc = Raise e))) ->
    extract_mcqs_from_pdf fitz_open pdf_path temp_dir = Ok [].
Proof.
  intros fitz_open pdf_path temp_dir H.
  unfold extract_mcqs_from_pdf, extract_body.
  destruct H as [[e E] | [doc [E [[p [e [Hin He]]] | [e He]]]]]; rewrite E; simpl.
  - reflexivity.
  - destruct (pages_loop_raises temp_dir (pages doc) 0 EmptyString [] [] p e Hin He)
      as [e' L].
    rewrite L. reflexivity.
  - destruct (pages_loop temp_dir 0 (pages doc) EmptyString [] []) as [[[t i] l]|];
      simpl; [|reflexivity].
    rewrite He. reflexivity.
Qed.

Lemma collaborator_failure_yields_empty_witness :
  extract_mcqs_from_pdf
    (fun _ : string =>
       Ok (mkDocument
             [mkPage (Ok "Q1. What is x?") (Ok []) (Ok []);
              mkPage (Raise (RuntimeError "no text")) (Ok []) (Ok [])]
             (Ok tt)))
    "f.pdf" "/tmp" = Ok [].
Proof.
  apply collaborator_failure_yields_empty.
  right. eexists. split; [reflexivity|]. left.
  exists (mkPage (Raise (RuntimeError "no text")) (Ok []) (Ok [])),
         (RuntimeError "no text").
  split; [simpl; auto | reflexivity].
Defined.

(** * Further properties of the parser *)

Lemma parse_mcqs_returns (text : string) (images : list Image)
      (links : list string) :
  exists topics, parse_mcqs text images links = Ok topics.
Proof.
  unfold parse_mcqs, parse_raw.
  destruct (run_lines_ok images links (split_on newline text) initial_state)
    as [st E].
  rewrite E. simpl.
  destruct (finish_ok images links st) as [sd F]. rewrite F. simpl. eauto.
Qed.

(** ** Blank lines and surrounding white space *)

Lemma process_line_strip images links st raw :
  process_line images links st (strip raw) = process_line images links st raw.
Proof. unfold process_line. rewrite strip_idempotent. reflexivity. Qed.

Lemma run_lines_normalise images links lines : forall st,
  run_lines images links st (map strip (filter nonblank lines)) =
  run_lines images links st lines.
Proof.
  induction lines as [|raw rest IH]; intros st; simpl.
  - reflexivity.
  - unfold nonblank at 1. destruct (is_empty (strip raw)) eqn:E; simpl.
    + rewrite (process_line_blank _ _ _ _ E). simpl. apply IH.
    + rewrite process_line_strip.
      destruct (process_line images links st raw); simpl; [apply IH | reflexivity].
Qed.

(** X1.  Blank lines, and white space around a line, do not count: two texts
    whose non-blank lines are the same once stripped parse to the same
    result. *)
Theorem parse_mcqs_whitespace_insensitive :
  forall (text text' : string) (images : list Image) (links : list string),
    map strip (filter nonblank (split_on newline text)) =
    map strip (filter nonblank (split_on newline text')) ->
    parse_mcqs text images links = parse_mcqs text' images links.
Proof.
  intros text text' images links H. unfold parse_mcqs, parse_raw.
  rewrite <- (run_lines_normalise images links (split_on newline text)).
  rewrite <- (run_lines_normalise images links (split_on newline text')).
  rewrite H. reflexivity.
Qed.

Lemma parse_mcqs_whitespace_insensitive_witness :
  parse_mcqs (unlines ["  Q1. What is x?  "; EmptyString; "   (a) p"; "  "]) [] [] =
  parse_mcqs (unlines ["Q1. What is x?"; "(a) p"]) [] [].
Proof.
  apply (parse_mcqs_whitespace_insensitive
           (unlines ["  Q1. What is x?  "; EmptyString; "   (a) p"; "  "])
           (unlines ["Q1. What is x?"; "(a) p"]) [] []).
  vm_compute. reflexivity.
Defined.

(** ** Options *)

Lemma option_line_cases raw :
  is_option_line raw = true ->
  is_topic (strip raw) = Ok false /\ is_question (strip raw) = false /\
  is_option (strip raw) = true.
Proof.
  unfold is_option_line, nonblank. intros H.
  apply andb_prop in H. destruct H as [H Ho].
  apply andb_prop in H. destruct H as [Hk Hn].
  destruct (keeps_open_cases raw Hk) as [Hb | [Ht Hq]].
  - rewrite Hb in Hn. discriminate.
  - auto.
Qed.

(** X2.  Option lines read while a question is open are appended to the
    options in the order they are read, each one normalised, none dropped
    and none merged; nothing else in the state changes. *)
Theorem options_keep_order :
  forall (images : list Image) (links : list string) (block : list string)
         (st : State) (q : Question),
    current_question st = Some q ->
    Forall (fun raw => is_option_line raw = true) block ->
    run_lines images links st block =
      Ok (mkState (structured_data st) (current_topic st) (Some q)
                  (current_options st
                   ++ map (fun raw => clean_option (strip raw)) block)
                  (question_counter st) (image_counter st)).
Proof.
  intros images links block.
  induction block as [|raw rest IH]; intros st q Eq Hall; simpl.
  - rewrite app_nil_r, <- Eq. destruct st; reflexivity.
  - inversion Hall as [|? ? Hr Hrest]; subst.
    destruct (option_line_cases raw Hr) as [Ht [Hq Ho]].
    rewrite (process_line_inner _ _ _ _ Ht Hq), Eq, Ho. simpl.
    rewrite IH with (q := q); [|reflexivity | exact Hrest]. simpl.
    rewrite <- app_assoc. reflexivity.
Qed.

Lemma options_keep_order_witness :
  run_lines [] [] (mkState [] None (Some (new_question "Capital?")) [] 1 0)
            ["(a) Paris"; "(b) London"; "(c) Rome"] =
    Ok (mkState [] None (Some (new_question "Capital?"))
                ([] ++ map (fun raw => clean_option (strip raw))
                           ["(a) Paris"; "(b) London"; "(c) Rome"])
                1 0).
Proof.
  apply (options_keep_order [] [] ["(a) Paris"; "(b) London"; "(c) Rome"]
           (mkState [] None (Some (new_question "Capital?")) [] 1 0)
           (new_question "Capital?")).
  - reflexivity.
  - repeat (constructor; [vm_compute; reflexivity|]). constructor.
Defined.

(** ** Counting questions *)

Lemma total_questions_app a b :
  total_questions (a ++ b) = total_questions a + total_questions b.
Proof. unfold total_questions. rewrite map_app, list_sum_app. reflexivity. Qed.

Lemma total_questions_snoc_empty sd name :
  total_questions (sd ++ [mkTopic name []]) = total_questions sd.
Proof. rewrite total_questions_app. unfold total_questions. simpl. lia. Qed.

Lemma total_questions_filter sd :
  total_questions (filter has_questions sd) = total_questions sd.
Proof.
  induction sd as [|t sd IH]; simpl.
  - reflexivity.
  - unfold has_questions at 1. destruct (questions t) eqn:E; simpl.
    + unfold total_questions in *. simpl. rewrite E. simpl. exact IH.
    + unfold total_questions in *. simpl. rewrite E, IH. reflexivity.
Qed.

Lemma assemble_filter sd : assemble sd = filter has_questions sd.
Proof. unfold assemble. destruct (filter has_questions sd); reflexivity. Qed.

Section Counting.

Variable images : list Image.
Variable links : list string.

Lemma commit_total st q sd' :
  commit images links st q = Ok sd' ->
  total_questions sd' = total_questions (structured_data st) + 1.
Proof.
  intros C.
  destruct (commit_ok images links st q) as [before [last [B C']]].
  rewrite C' in C. inversion C; subst sd'. clear C.
  assert (T : total_questions (before ++ [last])
              = total_questions (structured_data st)).
  { rewrite <- B. destruct (structured_data st); reflexivity. }
  rewrite total_questions_app in *. unfold total_questions in *. simpl in *.
  rewrite length_app. simpl. lia.
Qed.

(** One iteration: the questions stored and open grow by one exactly on a
    question line, [question_counter] follows, and [image_counter] stays
    below the number of stored questions. *)
Lemma process_line_counts st raw st' :
  process_line images links st raw = Ok st' ->
  let n := if is_question_line raw then 1 else 0 in
  total_questions (structured_data st') + open_count st'
    = total_questions (structured_data st) + open_count st + n /\
  question_counter st' = question_counter st + n /\
  (image_counter st <= total_questions (structured_data st) ->
   image_counter st' <= total_questions (structured_data st')).
Proof.
  unfold open_count.
  destruct (line_cases raw) as [H | [H | [[H Hq] | [H Hq]]]].
  - rewrite (process_line_blank _ _ _ _ H), (question_line_blank _ H).
    intros E; inversion E; subst. simpl. repeat split; lia.
  - rewrite (process_line_topic _ _ _ _ H).
    unfold is_question_line. rewrite H.
    destruct (current_question st) as [q|] eqn:Eq.
    + destruct (commit images links st q) as [sd'|] eqn:C; simpl; [|discriminate].
      pose proof (commit_total st q sd' C) as T.
      intros E; inversion E; subst; simpl.
      rewrite total_questions_snoc_empty. repeat split; lia.
    + simpl. intros E; inversion E; subst; simpl.
      rewrite total_questions_snoc_empty, Eq. repeat split; lia.
  - rewrite (process_line_question _ _ _ _ H Hq).
    unfold is_question_line. rewrite H, Hq, (is_topic_false_nonempty _ H). simpl.
    destruct (current_question st) as [q|].
    + destruct (commit images links st q) as [sd'|] eqn:C; simpl; [|discriminate].
      pose proof (commit_total st q sd' C) as T.
      intros E; inversion E; subst; simpl. repeat split; lia.
    + simpl. intros E; inversion E; subst; simpl. repeat split; lia.
  - rewrite (process_line_inner _ _ _ _ H Hq).
    unfold is_question_line. rewrite H, Hq, andb_false_r.
    destruct (current_question st) as [q|] eqn:Eq.
    2:{ intros E; inversion E; subst. rewrite Eq. repeat split; lia. }
    destruct (is_option (strip raw)).
    { intros E; inversion E; subst; simpl. repeat split; lia. }
    destruct (is_answer (strip raw)).
    { intros E; inversion E; subst; simpl. repeat split; lia. }
    destruct (negb (is_nil (current_options st))).
    { destruct (update_last _ (current_options st)); simpl; [|discriminate].
      intros E; inversion E; subst; simpl. repeat split; lia. }
    destruct (negb (is_empty (question q)));
      intros E; inversion E; subst; simpl; try rewrite Eq; repeat split; lia.
Qed.

Lemma run_lines_counts lines : forall st st',
  run_lines images links st lines = Ok st' ->
  total_questions (structured_data st') + open_count st'
    = total_questions (structured_data st) + open_count st
      + List.length (filter is_question_line lines) /\
  question_counter st'
    = question_counter st + List.length (filter is_question_line lines) /\
  (image_counter st <= total_questions (structured_data st) ->
   image_counter st' <= total_questions (structured_data st')).
Proof.
  induction lines as [|raw rest IH]; intros st st'; simpl.
  - intros E; inversion E; subst. repeat split; lia.
  - destruct (process_line images links st raw) as [st1|] eqn:E1; simpl;
      [|discriminate].
    intros E. destruct (process_line_counts st raw st1 E1) as [A [B C]].
    destruct (IH st1 st' E) as [A' [B' C']].
    destruct (is_question_line raw); simpl in *; repeat split; try lia; auto.
Qed.

Lemma finish_total st sd :
  finish images links st = Ok sd ->
  total_questions sd = total_questions (structured_data st) + open_count st.
Proof.
  unfold finish, open_count. destruct (current_question st) as [q|].
  - apply commit_total.
  - intros E; inversion E; subst. lia.
Qed.

End Counting.

(** X3.  At every point of the loop, [question_counter] is the number of
    question lines read so far, every one of them is either stored or still
    open, and [image_counter] does not exceed the number of stored
    questions. *)
Theorem loop_counters :
  forall (images : list Image) (links : list string) (lines : list string),
    exists st,
      run_lines images links initial_state lines = Ok st /\
      question_counter st = List.length (filter is_question_line lines) /\
      total_questions (structured_data st) + open_count st = question_counter st /\
      image_counter st <= total_questions (structured_data st).
Proof.
  intros images links lines.
  destruct (run_lines_ok images links lines initial_state) as [st E].
  exists st. split; [exact E|].
  destruct (run_lines_counts images links lines _ _ E) as [A [B C]].
  simpl in *. repeat split; lia.
Qed.

Lemma parse_mcqs_counts (text : string) (images : list Image)
      (links : list string) :
  exists out,
    parse_mcqs text images links = Ok out /\
    total_questions out
      = List.length (filter is_question_line (split_on newline text)).
Proof.
  unfold parse_mcqs, parse_raw.
  destruct (run_lines_ok images links (split_on newline text) initial_state)
    as [st E].
  destruct (finish_ok images links st) as [sd F].
  rewrite E. simpl. rewrite F. simpl. eexists. split; [reflexivity|].
  rewrite assemble_filter, total_questions_filter.
  rewrite (finish_total images links st sd F).
  destruct (run_lines_counts images links _ _ _ E) as [A _]. simpl in A.
  exact A.
Qed.

(** X4.  No question is lost and none is duplicated: the output of
    [parse_mcqs] holds exactly as many questions as the text has lines that
    reach the question branch. *)
Theorem parse_mcqs_question_count :
  forall (text : string) (images : list Image) (links : list string),
    exists out,
      parse_mcqs text images links = Ok out /\
      total_questions out
        = List.length (filter is_question_line (split_on newline text)).
Proof. exact parse_mcqs_counts. Qed.

(** X5.  Every topic of the output holds at least one question. *)
Theorem parse_mcqs_topics_nonempty :
  forall (text : string) (images : list Image) (links : list string),
    exists out,
      parse_mcqs text images links = Ok out /\
      Forall (fun t => questions t <> []) out.
Proof.
  intros text images links.
  destruct (parse_mcqs_returns text images links) as [out E].
  exists out. split; [exact E|].
  unfold parse_mcqs in E.
  destruct (parse_raw (split_on newline text) images links) as [sd|];
    simpl in E; [|discriminate].
  inversion E; subst out. rewrite assemble_filter.
  apply Forall_forall. intros t Hin. apply filter_In in Hin.
  destruct Hin as [_ Hq]. unfold has_questions in Hq.
  destruct (questions t); [discriminate | discriminate].
Qed.

(** ** Documents without headings *)

Section DefaultTopic.

Variable images : list Image.
Variable links : list string.

Lemma commit_default st q :
  current_topic st = None ->
  only_default (structured_data st) ->
  exists qs, commit images links st q = Ok [mkTopic "General Questions" qs].
Proof.
  intros Ht Hd. unfold commit. rewrite save_question_unfold, Ht.
  destruct Hd as [E | [qs E]]; rewrite E; unfold add_question; simpl; eauto.
Qed.

Lemma process_line_default st raw st' :
  current_topic st = None ->
  only_default (structured_data st) ->
  is_topic_line raw = false ->
  process_line images links st raw = Ok st' ->
  current_topic st' = None /\ only_default (structured_data st').
Proof.
  intros Ht Hd Hn.
  destruct (line_cases raw) as [H | [H | [[H Hq] | [H Hq]]]].
  - rewrite (process_line_blank _ _ _ _ H). intros E; inversion E; subst; auto.
  - rewrite (topic_line_of_is_topic _ H) in Hn. discriminate.
  - rewrite (process_line_question _ _ _ _ H Hq).
    destruct (current_question st) as [q|].
    + destruct (commit_default st q Ht Hd) as [qs C]. rewrite C. simpl.
      intros E; inversion E; subst; simpl. split; [exact Ht|]. right. eauto.
    + simpl. intros E; inversion E; subst; simpl. auto.
  - rewrite (process_line_inner _ _ _ _ H Hq).
    destruct (current_question st) as [q|].
    2:{ intros E; inversion E; subst; auto. }
    destruct (is_option (strip raw)).
    { intros E; inversion E; subst; auto. }
    destruct (is_answer (strip raw)).
    { intros E; inversion E; subst; auto. }
    destruct (negb (is_nil (current_options st))).
    { destruct (update_last _ (current_options st)); simpl; [|discriminate].
      intros E; inversion E; subst; auto. }
    destruct (negb (is_empty (question q)));
      intros E; inversion E; subst; auto.
Qed.

Lemma run_lines_default lines : forall st st',
  current_topic st = None ->
  only_default (structured_data st) ->
  Forall (fun raw => is_topic_line raw = false) lines ->
  run_lines images links st lines = Ok st' ->
  current_topic st' = None /\ only_default (structured_data st').
Proof.
  induction lines as [|raw rest IH]; intros st st' Ht Hd Hall; simpl.
  - intros E; inversion E; subst; auto.
  - inversion Hall as [|? ? Hr Hrest]; subst.
    destruct (process_line images links st raw) as [st1|] eqn:E1; simpl;
      [|discriminate].
    destruct (process_line_default st raw st1 Ht Hd Hr E1) as [Ht1 Hd1].
    apply IH; assumption.
Qed.

End DefaultTopic.

(** X6.  A text without any topic line yields at most one topic: either
    nothing, or the single topic "General Questions" holding one question
    for each question line. *)
Theorem no_heading_single_default_topic :
  forall (text : string) (images : list Image) (links : list string),
    Forall (fun raw => is_topic_line raw = false) (split_on newline text) ->
    exists qs,
      parse_mcqs text images links =
        Ok (match qs with
            | [] => []
            | _ :: _ => [mkTopic "General Questions" qs]
            end) /\
      List.length qs
        = List.length (filter is_question_line (split_on newline text)).
Proof.
  intros text images links Hall.
  destruct (parse_mcqs_counts text images links) as [out [P T]].
  assert (S : exists qs,
             out = match qs with
                   | [] => []
                   | _ :: _ => [mkTopic "General Questions" qs]
                   end).
  { unfold parse_mcqs, parse_raw in P.
    destruct (run_lines images links initial_state (split_on newline text))
      as [st|] eqn:E; simpl in P; [|discriminate].
    destruct (run_lines_default images links _ initial_state st eq_refl
                                (or_introl eq_refl) Hall E) as [Ht Hd].
    assert (F : exists sd, finish images links st = Ok sd /\ only_default sd).
    { unfold finish. destruct (current_question st) as [q|].
      - destruct (commit_default images links st q Ht Hd) as [qs C].
        rewrite C. eexists. split; [reflexivity|]. right. eauto.
      - eexists. split; [reflexivity | exact Hd]. }
    destruct F as [sd [F Hsd]]. rewrite F in P. simpl in P.
    inversion P; subst out.
    destruct Hsd as [-> | [qs ->]].
    - exists []. reflexivity.
    - exists qs. destruct qs; reflexivity. }
  destruct S as [qs S]. exists qs. split.
  - rewrite P, S. reflexivity.
  - rewrite <- T, S. destruct qs; unfold total_questions; simpl; lia.
Qed.

Lemma no_heading_single_default_topic_witness :
  exists qs,
    parse_mcqs (unlines ["1. What is x?"; "(a) p"; "2. What is y?"]) [] [] =
      Ok (match qs with
          | [] => []
          | _ :: _ => [mkTopic "General Questions" qs]
          end) /\
    List.length qs
      = List.length
          (filter is_question_line
             (split_on newline
                (unlines ["1. What is x?"; "(a) p"; "2. What is y?"]))).
Proof.
  apply (no_heading_single_default_topic
           (unlines ["1. What is x?"; "(a) p"; "2. What is y?"]) [] []).
  replace (split_on newline (unlines ["1. What is x?"; "(a) p"; "2. What is y?"]))
    with ["1. What is x?"; "(a) p"; "2. What is y?"]
    by (vm_compute; reflexivity).
  repeat (constructor; [vm_compute; reflexivity|]). constructor.
Defined.

(** ** Where images and links come from *)

Section AssetOrigin.

Variable images : list Image.
Variable links : list string.

Lemma correlated_assets_from q opts k :
  image q = None -> video_link q = None ->
  assets_from images links (correlated q opts images links k).
Proof.
  intros Hi Hv. unfold assets_from, correlated. simpl. rewrite Hi, Hv. split.
  - intros p. destruct (nth_error images k) as [img|] eqn:E; [|discriminate].
    intros P; inversion P; subst. apply in_map. apply (nth_error_In _ _ E).
  - intros l. destruct (nth_error links k) as [lk|] eqn:E; [|discriminate].
    intros P; inversion P; subst. apply (nth_error_In _ _ E).
Qed.

Lemma commit_assets st q sd' :
  unset_assets st -> current_question st = Some q ->
  stored_assets_from images links (structured_data st) ->
  commit images links st q = Ok sd' ->
  stored_assets_from images links sd'.
Proof.
  intros Hu Eq Hs C. destruct (Hu q Eq) as [Hi Hv].
  destruct (commit_ok images links st q) as [before [last [B C']]].
  rewrite C' in C. inversion C; subst sd'. clear C.
  assert (Hb : stored_assets_from images links (before ++ [last])).
  { rewrite <- B. destruct (structured_data st); [|exact Hs].
    repeat constructor. }
  unfold stored_assets_from in *. apply Forall_app in Hb. destruct Hb as [H1 H2].
  apply Forall_app. split; [exact H1|].
  inversion H2 as [|? ? Hl _]; subst. constructor; [|constructor].
  simpl. apply Forall_app. split; [exact Hl|].
  constructor; [|constructor]. apply correlated_assets_from; assumption.
Qed.

Lemma process_line_assets st raw st' :
  unset_assets st ->
  stored_assets_from images links (structured_data st) ->
  process_line images links st raw = Ok st' ->
  stored_assets_from images links (structured_data st').
Proof.
  intros Hu Hs.
  destruct (line_cases raw) as [H | [H | [[H Hq] | [H Hq]]]].
  - rewrite (process_line_blank _ _ _ _ H). intros E; inversion E; subst; auto.
  - rewrite (process_line_topic _ _ _ _ H).
    destruct (current_question st) as [q|] eqn:Eq.
    + destruct (commit images links st q) as [sd'|] eqn:C; simpl; [|discriminate].
      intros E; inversion E; subst; simpl.
      apply Forall_app. split; [apply (commit_assets st q sd' Hu Eq Hs C)|].
      repeat constructor.
    + simpl. intros E; inversion E; subst; simpl.
      apply Forall_app. split; [exact Hs | repeat constructor].
  - rewrite (process_line_question _ _ _ _ H Hq).
    destruct (current_question st) as [q|] eqn:Eq.
    + destruct (commit images links st q) as [sd'|] eqn:C; simpl; [|discriminate].
      intros E; inversion E; subst; simpl.
      apply (commit_assets st q sd' Hu Eq Hs C).
    + simpl. intros E; inversion E; subst; simpl. exact Hs.
  - rewrite (process_line_inner _ _ _ _ H Hq).
    destruct (current_question st) as [q|].
    2:{ intros E; inversion E; subst; auto. }
    destruct (is_option (strip raw)).
    { intros E; inversion E; subst; auto. }
    destruct (is_answer (strip raw)).
    { intros E; inversion E; subst; auto. }
    destruct (negb (is_nil (current_options st))).
    { destruct (update_last _ (current_options st)); simpl; [|discriminate].
      intros E; inversion E; subst; auto. }
    destruct (negb (is_empty (question q)));
      intros E; inversion E; subst; auto.
Qed.

Lemma run_lines_assets lines : forall st st',
  unset_assets st ->
  stored_assets_from images links (structured_data st) ->
  run_lines images links st lines = Ok st' ->
  unset_assets st' /\ stored_assets_from images links (structured_data st').
Proof.
  induction lines as [|raw rest IH]; intros st st' Hu Hs; simpl.
  - intros E; inversion E; subst; auto.
  - destruct (process_line images links st raw) as [st1|] eqn:E1; simpl;
      [|discriminate].
    apply IH.
    + apply (process_line_unset images links st raw st1 Hu E1).
    + apply (process_line_assets st raw st1 Hu Hs E1).
Qed.

End AssetOrigin.

(** X7.  [parse_mcqs] never invents an asset: in its output the image of a
    question, when set, is the path of one of the images it was given, and
    the link, when set, is one of the links it was given. *)
Theorem parse_mcqs_assets_from_lists :
  forall (text : string) (images : list Image) (links : list string),
    exists out,
      parse_mcqs text images links = Ok out /\
      Forall (fun t => Forall (assets_from images links) (questions t)) out.
Proof.
  intros text images links.
  destruct (parse_mcqs_returns text images links) as [out P].
  exists out. split; [exact P|].
  unfold parse_mcqs, parse_raw in P.
  destruct (run_lines images links initial_state (split_on newline text))
    as [st|] eqn:E; simpl in P; [|discriminate].
  destruct (run_lines_assets images links _ _ _ (initial_unset)
              (Forall_nil _) E) as [Hu Hs].
  destruct (finish images links st) as [sd|] eqn:F; simpl in P; [|discriminate].
  inversion P; subst out.
  assert (Hsd : stored_assets_from images links sd).
  { unfold finish in F. destruct (current_question st) as [q|] eqn:Eq.
    - apply (commit_assets images links st q sd Hu Eq Hs F).
    - inversion F; subst; exact Hs. }
  rewrite assemble_filter. unfold stored_assets_from in Hsd.
  rewrite Forall_forall in *. intros t Hin. apply filter_In in Hin.
  apply Hsd. apply Hin.
Qed.

(** * Properties of the page readers and of the driver *)

(** ** Links *)

Lemma links_loop_filter link_list : forall links,
  links_loop link_list links =
  links ++ filter (fun u => any_in link_keywords (lower u)) (uris link_list).
Proof.
  induction link_list as [|link rest IH]; intros links.
  - simpl. rewrite app_nil_r. reflexivity.
  - cbn [links_loop]. unfold uris. cbn [flat_map]. fold (uris rest).
    destruct (uri link) as [u|].
    + cbn [app filter]. destruct (any_in link_keywords (lower u)) eqn:K.
      * rewrite IH, <- app_assoc. reflexivity.
      * apply IH.
    + cbn [app]. apply IH.
Qed.

(** X8.  [extract_links_from_page] returns, in page order, exactly the uris
    whose lower-cased text contains "youtube", "video", "watch" or
    "explanation"; links without a uri are skipped, and when the page's
    links cannot be read the result is empty. *)
Theorem extract_links_keeps_video_links :
  forall page : Page,
    extract_links_from_page page =
      match get_links page with
      | Ok link_list =>
          filter (fun u => any_in link_keywords (lower u)) (uris link_list)
      | Raise _ => []
      end.
Proof.
  intros page. unfold extract_links_from_page.
  destruct (get_links page); [|reflexivity].
  apply links_loop_filter.
Qed.

(** ** Images *)

Lemma images_loop_app pn td l : forall i acc,
  images_loop pn td i l acc = acc ++ images_loop pn td i l [].
Proof.
  induction l as [|e rest IH]; intros i acc; simpl.
  - rewrite app_nil_r. reflexivity.
  - destruct (extract_image e); [|rewrite app_nil_r; reflexivity].
    destruct (write_image e); [|rewrite app_nil_r; reflexivity].
    rewrite IH. rewrite (IH (i + 1) [_]). rewrite app_assoc. reflexivity.
Qed.

Lemma images_loop_nth pn td l : forall i k img,
  nth_error (images_loop pn td i l []) k = Some img ->
  exists e ext,
    nth_error l k = Some e /\
    extract_image e = Ok ext /\
    write_image e = Ok tt /\
    img = mkImage pn (i + k) (path_join td (image_filename pn (i + k) ext)).
Proof.
  induction l as [|e rest IH]; intros i k img; simpl.
  - destruct k; discriminate.
  - destruct (extract_image e) as [ext|] eqn:Ee; [|destruct k; discriminate].
    destruct (write_image e) as [u|] eqn:Ew; [|destruct k; discriminate].
    rewrite images_loop_app. destruct k as [|k]; simpl.
    + intros H; inversion H; subst. exists e, ext. destruct u.
      rewrite Nat.add_0_r. repeat split; assumption.
    + intros H. destruct (IH (i + 1) k img H) as [e' [ext' [A [B [C D]]]]].
      exists e', ext'. replace (i + S k) with (i + 1 + k) by lia.
      repeat split; assumption.
Qed.

Lemma images_loop_length_le pn td l : forall i,
  List.length (images_loop pn td i l []) <= List.length l.
Proof.
  induction l as [|e rest IH]; intros i; simpl.
  - lia.
  - destruct (extract_image e); [|simpl; lia].
    destruct (write_image e); [|simpl; lia].
    rewrite images_loop_app. simpl. specialize (IH (i + 1)). lia.
Qed.

Lemma images_loop_all_ok pn td l : forall i,
  Forall (fun e => ~ image_failed e) l ->
  List.length (images_loop pn td i l []) = List.length l.
Proof.
  induction l as [|e rest IH]; intros i Hall; simpl.
  - reflexivity.
  - inversion Hall as [|? ? He Hrest]; subst.
    destruct (extract_image e) eqn:Ee.
    2:{ exfalso. apply He. left. eauto. }
    destruct (write_image e) eqn:Ew.
    2:{ exfalso. apply He. right. eauto. }
    rewrite images_loop_app. simpl. rewrite (IH (i + 1) Hrest). reflexivity.
Qed.

Lemma images_loop_stops pn td l : forall i j e,
  nth_error l j = Some e -> image_failed e ->
  List.length (images_loop pn td i l []) <= j.
Proof.
  induction l as [|x rest IH]; intros i j e Hn Hf.
  - destruct j; discriminate.
  - simpl. destruct j as [|j]; simpl in Hn.
    + inversion Hn; subst x.
      destruct Hf as [[y E] | [y E]].
      * rewrite E. simpl. lia.
      * destruct (extract_image e); [|simpl; lia]. rewrite E. simpl. lia.
    + pose proof (images_loop_length_le pn td (x :: rest) i) as L.
      destruct (extract_image x); [|simpl; lia].
      destruct (write_image x); [|simpl; lia].
      rewrite images_loop_app. simpl.
      specialize (IH (i + 1) j e Hn Hf). lia.
Qed.

Lemma extract_images_nth (page : Page) (page_num : nat) (temp_dir : string)
      (k : nat) (img : Image) :
  nth_error (extract_images_from_page page page_num temp_dir) k = Some img ->
  exists image_list e ext,
    get_images page = Ok image_list /\
    nth_error image_list k = Some e /\
    extract_image e = Ok ext /\
    write_image e = Ok tt /\
    img = mkImage page_num k
            (path_join temp_dir (image_filename page_num k ext)).
Proof.
  unfold extract_images_from_page.
  destruct (get_images page) as [image_list|]; [|destruct k; discriminate].
  intros H. destruct (images_loop_nth _ _ _ _ _ _ H) as [e [ext [A [B [C D]]]]].
  exists image_list, e, ext. simpl in D. auto.
Qed.

(** X9.  The image that [extract_images_from_page] returns at rank [k] is
    the page's [k]-th embedded image: it was extracted and written, it
    carries the page number and the rank [k], and its path is
    [temp_dir]/page<page_num>_img<k>.<ext>. *)
Theorem extract_images_rank :
  forall (page : Page) (page_num : nat) (temp_dir : string) (k : nat)
         (img : Image),
    nth_error (extract_images_from_page page page_num temp_dir) k = Some img ->
    exists image_list e ext,
      get_images page = Ok image_list /\
      nth_error image_list k = Some e /\
      extract_image e = Ok ext /\
      write_image e = Ok tt /\
      img = mkImage page_num k
              (path_join temp_dir (image_filename page_num k ext)).
Proof. exact extract_images_nth. Qed.

Lemma extract_images_rank_witness :
  exists image_list e ext,
    get_images (mkPage (Ok "t")
                  (Ok [mkEmbeddedImage (Ok "png") (Ok tt);
                       mkEmbeddedImage (Ok "jpg") (Ok tt)])
                  (Ok [])) = Ok image_list /\
    nth_error image_list 1 = Some e /\
    extract_image e = Ok ext /\
    write_image e = Ok tt /\
    mkImage 3 1 "/tmp/d/page3_img1.jpg" =
      mkImage 3 1 (path_join "/tmp/d" (image_filename 3 1 ext)).
Proof.
  apply (extract_images_rank
           (mkPage (Ok "t")
              (Ok [mkEmbeddedImage (Ok "png") (Ok tt);
                   mkEmbeddedImage (Ok "jpg") (Ok tt)])
              (Ok []))
           3 "/tmp/d" 1 (mkImage 3 1 "/tmp/d/page3_img1.jpg")).
  vm_compute. reflexivity.
Defined.

(** X10.  [extract_images_from_page] stops at the first embedded image that
    cannot be extracted or written: that image and every later one are left
    out, the earlier ones are kept; when none fails there is one image per
    embedded image, and when the image list itself cannot be read there is
    none. *)
Theorem extract_images_stop_at_failure :
  forall (page : Page) (page_num : nat) (temp_dir : string),
    match get_images page with
    | Ok image_list =>
        (Forall (fun e => ~ image_failed e) image_list ->
         List.length (extract_images_from_page page page_num temp_dir)
           = List.length image_list) /\
        (forall j e,
            nth_error image_list j = Some e -> image_failed e ->
            List.length (extract_images_from_page page page_num temp_dir) <= j) /\
        (forall j e,
            nth_error image_list j = Some e -> image_failed e ->
            (forall i x, i < j -> nth_error image_list i = Some x ->
                         ~ image_failed x) ->
            List.length (extract_images_from_page page page_num temp_dir) = j)
    | Raise _ => extract_images_from_page page page_num temp_dir = []
    end.
Proof.
  intros page page_num temp_dir. unfold extract_images_from_page.
  destruct (get_images page) as [image_list|]; [|reflexivity].
  split; [apply images_loop_all_ok|]. split; [apply images_loop_stops|].
  intros j e Hn Hf Hbefore.
  apply Nat.le_antisymm; [apply (images_loop_stops _ _ _ _ _ _ Hn Hf)|].
  clear Hf. generalize dependent j. generalize 0 as i.
  induction image_list as [|x rest IH]; intros i j Hn Hbefore.
  - destruct j; discriminate.
  - destruct j as [|j]; [lia|]. simpl in Hn. simpl.
    assert (Hx : ~ image_failed x) by (apply (Hbefore 0 x); [lia | reflexivity]).
    destruct (extract_image x) eqn:Ee.
    2:{ exfalso. apply Hx. left. eauto. }
    destruct (write_image x) eqn:Ew.
    2:{ exfalso. apply Hx. right. eauto. }
    rewrite images_loop_app. simpl. apply le_n_S.
    apply (IH (i + 1) j Hn).
    intros i' x' Hi' Hn'. apply (Hbefore (S i') x'); [lia | exact Hn'].
Qed.

(** ** The driver as a composition *)

Lemma pages_loop_spec temp_dir doc : forall texts page_num full_text images links,
  map get_text doc = map Ok texts ->
  pages_loop temp_dir page_num doc full_text images links =
    Ok ((full_text ++ join_all texts)%string,
        images ++ doc_images temp_dir page_num doc,
        links ++ doc_links doc).
Proof.
  induction doc as [|page rest IH]; intros texts pn text images links H.
  - destruct texts; [|discriminate]. simpl.
    rewrite str_app_empty_r, !app_nil_r. reflexivity.
  - destruct texts as [|t texts]; [discriminate|]. simpl in H.
    inversion H as [[Ht Hrest]]. simpl. rewrite Ht. simpl.
    rewrite (IH texts _ _ _ _ Hrest).
    rewrite str_app_assoc, <- !app_assoc. reflexivity.
Qed.

Lemma pages_loop_images temp_dir doc : forall page_num full_text images links r,
  pages_loop temp_dir page_num doc full_text images links = Ok r ->
  snd (fst r) = images ++ doc_images temp_dir page_num doc.
Proof.
  induction doc as [|page rest IH]; intros pn text images links r; simpl.
  - intros E; inversion E; subst. simpl. rewrite app_nil_r. reflexivity.
  - destruct (get_text page); simpl; [|discriminate].
    intros E. rewrite (IH _ _ _ _ _ E), <- app_assoc. reflexivity.
Qed.

(** X11.  When the document opens, every page's text can be read and the
    document closes, [extract_mcqs_from_pdf] is [parse_mcqs] applied to the
    page texts joined in page order, the images of all pages in page order
    and the links of all pages in page order; a page whose images or links
    cannot be read contributes none and does not fail the extraction. *)
Theorem extract_is_parse_of_pages :
  forall (fitz_open : string -> result Document) (pdf_path temp_dir : string)
         (doc : Document) (texts : list string),
    fitz_open pdf_path = Ok doc ->
    map get_text (pages doc) = map Ok texts ->
    close doc = Ok tt ->
    extract_mcqs_from_pdf fitz_open pdf_path temp_dir =
      parse_mcqs (join_all texts) (doc_images temp_dir 0 (pages doc))
                 (doc_links (pages doc)).
Proof.
  intros fitz_open pdf_path temp_dir doc texts Ho Ht Hc.
  unfold extract_mcqs_from_pdf, extract_body. rewrite Ho. simpl.
  rewrite (pages_loop_spec temp_dir (pages doc) texts 0 _ _ _ Ht). simpl.
  rewrite Hc. simpl.
  destruct (parse_mcqs_returns (join_all texts)
              (doc_images temp_dir 0 (pages doc)) (doc_links (pages doc)))
    as [out P].
  rewrite P. reflexivity.
Qed.

Lemma extract_is_parse_of_pages_witness :
  extract_mcqs_from_pdf
    (fun _ : string =>
       Ok (mkDocument
             [mkPage (Ok "Q1. What is x?") (Raise (RuntimeError "no images"))
                     (Ok [mkLink (Some "http://video.example/1")]);
              mkPage (Ok EmptyString) (Ok [mkEmbeddedImage (Ok "png") (Ok tt)])
                     (Raise (RuntimeError "no links"))]
             (Ok tt)))
    "f.pdf" "/tmp/d" =
  parse_mcqs
    (join_all ["Q1. What is x?"; EmptyString])
    (doc_images "/tmp/d" 0
       [mkPage (Ok "Q1. What is x?") (Raise (RuntimeError "no images"))
               (Ok [mkLink (Some "http://video.example/1")]);
        mkPage (Ok EmptyString) (Ok [mkEmbeddedImage (Ok "png") (Ok tt)])
               (Raise (RuntimeError "no links"))])
    (doc_links
       [mkPage (Ok "Q1. What is x?") (Raise (RuntimeError "no images"))
               (Ok [mkLink (Some "http://video.example/1")]);
        mkPage (Ok EmptyString) (Ok [mkEmbeddedImage (Ok "png") (Ok tt)])
               (Raise (RuntimeError "no links"))]).
Proof.
  apply (extract_is_parse_of_pages
           (fun _ : string =>
              Ok (mkDocument
                    [mkPage (Ok "Q1. What is x?") (Raise (RuntimeError "no images"))
                            (Ok [mkLink (Some "http://video.example/1")]);
                     mkPage (Ok EmptyString)
                            (Ok [mkEmbeddedImage (Ok "png") (Ok tt)])
                            (Raise (RuntimeError "no links"))]
                    (Ok tt)))
           "f.pdf" "/tmp/d"
           (mkDocument
              [mkPage (Ok "Q1. What is x?") (Raise (RuntimeError "no images"))
                      (Ok [mkLink (Some "http://video.example/1")]);
               mkPage (Ok EmptyString) (Ok [mkEmbeddedImage (Ok "png") (Ok tt)])
                      (Raise (RuntimeError "no links"))]
              (Ok tt))
           ["Q1. What is x?"; EmptyString]);
    reflexivity.
Defined.

(** ** Image files do not collide *)

Lemma str_app_cancel_l (a x y : string) :
  (a ++ x = a ++ y)%string -> x = y.
Proof.
  induction a as [|c a IH]; simpl; intros H; [exact H|].
  inversion H. auto.
Qed.

Lemma digit_run_unique (d1 : string) : forall (d2 : string) c1 r1 c2 r2,
  str_exists (fun c => negb (Char.isdecimal c)) d1 = false ->
  str_exists (fun c => negb (Char.isdecimal c)) d2 = false ->
  Char.isdecimal c1 = false -> Char.isdecimal c2 = false ->
  (d1 ++ String c1 r1 = d2 ++ String c2 r2)%string ->
  d1 = d2 /\ String c1 r1 = String c2 r2.
Proof.
  induction d1 as [|x d1 IH]; intros d2 c1 r1 c2 r2 H1 H2 N1 N2 E.
  - destruct d2 as [|y d2]; simpl in E.
    + auto.
    + inversion E; subst. simpl in H2. rewrite N1 in H2. discriminate.
  - destruct d2 as [|y d2]; simpl in E.
    + inversion E; subst. simpl in H1. rewrite N2 in H1. discriminate.
    + inversion E; subst. simpl in H1, H2.
      apply orb_false_elim in H1. apply orb_false_elim in H2.
      destruct (IH d2 c1 r1 c2 r2 (proj2 H1) (proj2 H2) N1 N2 H3) as [A B].
      subst. auto.
Qed.

Lemma string_of_uint_digits d :
  str_exists (fun c => negb (Char.isdecimal c)) (NilEmpty.string_of_uint d) = false.
Proof. induction d; simpl; auto. Qed.

Lemma str_of_nat_digits n :
  str_exists (fun c => negb (Char.isdecimal c)) (str_of_nat n) = false.
Proof. apply string_of_uint_digits. Qed.

Lemma str_of_nat_inj n m : str_of_nat n = str_of_nat m -> n = m.
Proof.
  unfold str_of_nat. intros H.
  assert (U : Some (Nat.to_uint n) = Some (Nat.to_uint m)).
  { rewrite <- !NilEmpty.usu. rewrite H. reflexivity. }
  inversion U as [U']. rewrite <- (Unsigned.of_to n), <- (Unsigned.of_to m), U'.
  reflexivity.
Qed.

Lemma image_filename_inj p i e p' i' e' :
  image_filename p i e = image_filename p' i' e' -> p = p' /\ i = i'.
Proof.
  unfold image_filename. intros H.
  apply (str_app_cancel_l "page") in H.
  destruct (digit_run_unique (str_of_nat p) (str_of_nat p')
              "_" ("img" ++ str_of_nat i ++ "." ++ e)%string
              "_" ("img" ++ str_of_nat i' ++ "." ++ e')%string
              (str_of_nat_digits p) (str_of_nat_digits p')
              eq_refl eq_refl H) as [A B].
  apply (str_app_cancel_l "_img") in B.
  destruct (digit_run_unique (str_of_nat i) (str_of_nat i')
              "." e "." e'
              (str_of_nat_digits i) (str_of_nat_digits i')
              eq_refl eq_refl B) as [C _].
  split; apply str_of_nat_inj; assumption.
Qed.

Lemma path_join_filename_inj td p i e p' i' e' :
  path_join td (image_filename p i e) = path_join td (image_filename p' i' e') ->
  p = p' /\ i = i'.
Proof.
  unfold path_join.
  replace (String.prefix "/" (image_filename p i e)) with false by reflexivity.
  replace (String.prefix "/" (image_filename p' i' e')) with false by reflexivity.
  destruct (is_empty td || ends_with_sep td); intros H;
    apply str_app_cancel_l in H.
  - apply (image_filename_inj _ _ _ _ _ _ H).
  - apply (str_app_cancel_l "/") in H. apply (image_filename_inj _ _ _ _ _ _ H).
Qed.

Lemma NoDup_map_by_key {A K B : Type} (key : A -> K) (f : A -> B) (l : list A) :
  (forall x y, In x l -> In y l -> f x = f y -> key x = key y) ->
  NoDup (map key l) -> NoDup (map f l).
Proof.
  induction l as [|a l IH]; intros Hk Hn; simpl.
  - constructor.
  - inversion Hn as [|? ? Hnotin Hrest]; subst. constructor.
    + intros Hin. apply in_map_iff in Hin. destruct Hin as [b [Eb Hb]].
      apply Hnotin. apply in_map_iff. exists b. split; [|exact Hb].
      apply Hk; [right; exact Hb | left; reflexivity | exact Eb].
    + apply IH; [|exact Hrest].
      intros x y Hx Hy. apply Hk; right; assumption.
Qed.

Section ImagePaths.

Variable temp_dir : string.

Lemma page_images_shape pg pn img :
  In img (extract_images_from_page pg pn temp_dir) ->
  page img = pn /\
  exists ext,
    path img = path_join temp_dir (image_filename (page img) (index img) ext).
Proof.
  intros Hin. apply In_nth_error in Hin. destruct Hin as [k Hk].
  destruct (extract_images_nth pg pn temp_dir k img Hk)
    as [l [e [ext [_ [_ [_ [_ E]]]]]]].
  subst img. simpl. eauto.
Qed.

Lemma page_images_keys pg pn :
  NoDup (map image_key (extract_images_from_page pg pn temp_dir)).
Proof.
  apply NoDup_nth_error. intros i j Hi. rewrite !nth_error_map.
  rewrite length_map in Hi.
  destruct (nth_error (extract_images_from_page pg pn temp_dir) i)
    as [a|] eqn:Ea.
  2:{ apply nth_error_None in Ea. lia. }
  destruct (nth_error (extract_images_from_page pg pn temp_dir) j)
    as [b|] eqn:Eb; simpl; [|discriminate].
  destruct (extract_images_nth pg pn temp_dir i a Ea)
    as [? [? [? [_ [_ [_ [_ Ha]]]]]]].
  destruct (extract_images_nth pg pn temp_dir j b Eb)
    as [? [? [? [_ [_ [_ [_ Hb]]]]]]].
  subst a b. unfold image_key. simpl. intros H. inversion H. reflexivity.
Qed.

Lemma doc_images_shape doc : forall pn img,
  In img (doc_images temp_dir pn doc) ->
  pn <= page img /\
  exists ext,
    path img = path_join temp_dir (image_filename (page img) (index img) ext).
Proof.
  induction doc as [|pg rest IH]; intros pn img; simpl.
  - intros [].
  - intros Hin. apply in_app_or in Hin. destruct Hin as [Hin | Hin].
    + destruct (page_images_shape pg pn img Hin) as [A B]. split; [lia | exact B].
    + destruct (IH (pn + 1) img Hin) as [A B]. split; [lia | exact B].
Qed.

Lemma doc_images_keys doc : forall pn,
  NoDup (map image_key (doc_images temp_dir pn doc)).
Proof.
  induction doc as [|pg rest IH]; intros pn; simpl.
  - constructor.
  - rewrite map_app. apply NoDup_app.
    + apply page_images_keys.
    + apply IH.
    + intros key Hin Hin'.
      apply in_map_iff in Hin. destruct Hin as [a [Ea Ha]].
      apply in_map_iff in Hin'. destruct Hin' as [b [Eb Hb]].
      destruct (page_images_shape pg pn a Ha) as [Pa _].
      destruct (doc_images_shape rest (pn + 1) b Hb) as [Pb _].
      subst key. unfold image_key in Eb. inversion Eb. lia.
Qed.

Lemma doc_images_paths doc pn :
  NoDup (map path (doc_images temp_dir pn doc)).
Proof.
  apply (NoDup_map_by_key image_key); [|apply doc_images_keys].
  intros x y Hx Hy E.
  destruct (doc_images_shape doc pn x Hx) as [_ [ex Px]].
  destruct (doc_images_shape doc pn y Hy) as [_ [ey Py]].
  rewrite Px, Py in E. destruct (path_join_filename_inj _ _ _ _ _ _ _ E) as [A B].
  unfold image_key. rewrite A, B. reflexivity.
Qed.

End ImagePaths.

(** X12.  The images collected over the pages of a document all have
    different paths: no image file written for one document overwrites
    another one. *)
Theorem image_paths_distinct :
  forall (temp_dir : string) (doc : list Page) (full_text : string)
         (images : list Image) (links : list string),
    pages_loop temp_dir 0 doc EmptyString [] [] = Ok (full_text, images, links) ->
    NoDup (map path images).
Proof.
  intros temp_dir doc full_text images links H.
  apply pages_loop_images in H. simpl in H. subst images.
  apply doc_images_paths.
Qed.

Lemma image_paths_distinct_witness :
  NoDup (map path
           [mkImage 0 0 "/tmp/d/page0_img0.png";
            mkImage 0 1 "/tmp/d/page0_img1.jpg";
            mkImage 1 0 "/tmp/d/page1_img0.png"]).
Proof.
  apply (image_paths_distinct "/tmp/d"
           [mkPage (Ok "a")
                   (Ok [mkEmbeddedImage (Ok "png") (Ok tt);
                        mkEmbeddedImage (Ok "jpg") (Ok tt)]) (Ok []);
            mkPage (Ok "b") (Ok [mkEmbeddedImage (Ok "png") (Ok tt)]) (Ok [])]
           "ab"
           [mkImage 0 0 "/tmp/d/page0_img0.png";
            mkImage 0 1 "/tmp/d/page0_img1.jpg";
            mkImage 1 0 "/tmp/d/page1_img0.png"]
           []).
  vm_compute. reflexivity.
Defined.

(** * Properties of the classifiers and of the normalisers *)

(** ** What a normaliser returns *)

Lemma star_rest p s k x :
  Re.star p s k = Some x ->
  exists pre rest, s = (pre ++ rest)%string /\ k rest = Some x.
Proof.
  revert x. induction s as [|c s IH]; intros x; simpl.
  - intros H. exists EmptyString, EmptyString. auto.
  - destruct (p c).
    + destruct (Re.star p s k) as [y|] eqn:E.
      * intros H. inversion H; subst y.
        destruct (IH x eq_refl) as [pre [rest [A B]]].
        exists (String c pre), rest. subst s. auto.
      * intros H. exists EmptyString, (String c s). auto.
    + intros H. exists EmptyString, (String c s). auto.
Qed.

(** A successful match hands a suffix of the subject to its continuation. *)
Lemma run_rest ic r : forall s k x,
  Re.run ic r s k = Some x ->
  exists pre rest, s = (pre ++ rest)%string /\ k rest = Some x.
Proof.
  induction r as [|c|p|r1 IH1 r2 IH2|r1 IH1 r2 IH2|r IH|p|p];
    intros s k x; simpl.
  - intros H. exists EmptyString, s. auto.
  - destruct s as [|y s]; [discriminate|].
    destruct (Re.chr_eq ic c y); [|discriminate].
    intros H. exists (String y EmptyString), s. auto.
  - destruct s as [|y s]; [discriminate|].
    destruct (p y); [|discriminate].
    intros H. exists (String y EmptyString), s. auto.
  - intros H. destruct (IH1 _ _ _ H) as [pre1 [rest1 [A1 B1]]].
    destruct (IH2 _ _ _ B1) as [pre2 [rest2 [A2 B2]]].
    exists (pre1 ++ pre2)%string, rest2. subst. rewrite str_app_assoc. auto.
  - destruct (Re.run ic r1 s k) as [y|] eqn:E.
    + intros H. inversion H; subst y. apply (IH1 _ _ _ E).
    + apply IH2.
  - destruct (Re.run ic r s k) as [y|] eqn:E.
    + intros H. inversion H; subst y. apply (IH _ _ _ E).
    + intros H. exists EmptyString, s. auto.
  - apply star_rest.
  - destruct s as [|y s]; [discriminate|].
    destruct (p y); [|discriminate].
    intros H. destruct (star_rest _ _ _ _ H) as [pre [rest [A B]]].
    exists (String y pre), rest. subst. auto.
Qed.

Lemma sub_prefix_rest ic r s :
  exists pre, s = (pre ++ Re.sub_prefix ic r s)%string.
Proof.
  unfold Re.sub_prefix, Re.rmatch.
  destruct (Re.run ic r s Some) as [x|] eqn:E.
  - destruct (run_rest _ _ _ _ _ E) as [pre [rest [A B]]].
    inversion B; subst. eauto.
  - exists EmptyString. reflexivity.
Qed.

Lemma lstrip_rest s : exists pre, s = (pre ++ lstrip s)%string.
Proof.
  induction s as [|c s [pre IH]]; simpl.
  - exists EmptyString. reflexivity.
  - destruct (Char.isspace c).
    + exists (String c pre). simpl. rewrite <- IH. reflexivity.
    + exists EmptyString. reflexivity.
Qed.

Lemma rstrip_rest s : exists post, s = (rstrip s ++ post)%string.
Proof.
  induction s as [|c s [post IH]]; simpl.
  - exists EmptyString. reflexivity.
  - destruct (Char.isspace c && is_empty (rstrip s)).
    + exists (String c s). reflexivity.
    + exists post. simpl. rewrite <- IH. reflexivity.
Qed.

Lemma strip_rest s : exists pre post, s = (pre ++ strip s ++ post)%string.
Proof.
  unfold strip. destruct (lstrip_rest s) as [pre A].
  destruct (rstrip_rest (lstrip s)) as [post B].
  exists pre, post. rewrite <- B. exact A.
Qed.

Lemma substring_of_suffix (s t : string) (pre : string) :
  s = (pre ++ t)%string ->
  exists pre' post, s = (pre' ++ strip t ++ post)%string.
Proof.
  intros A. destruct (strip_rest t) as [p [q B]].
  exists (pre ++ p)%string, q. rewrite str_app_assoc, <- B. exact A.
Qed.

(** X13.  A normaliser only cuts at the two ends: the text it returns occurs
    in the line it was given, character for character. *)
Theorem clean_returns_substring :
  forall line : string,
    (exists pre post, line = (pre ++ clean_topic line ++ post)%string) /\
    (exists pre post, line = (pre ++ clean_question line ++ post)%string) /\
    (exists pre post, line = (pre ++ clean_option line ++ post)%string) /\
    (exists pre post, line = (pre ++ clean_answer line ++ post)%string).
Proof.
  intros line. repeat split.
  - destruct (sub_prefix_rest true topic_prefix line) as [pre A].
    apply (substring_of_suffix _ _ pre A).
  - unfold clean_question. cbv zeta.
    destruct (sub_prefix_rest true question_word_prefix line) as [p1 A1].
    destruct (sub_prefix_rest false question_number_prefix
                (Re.sub_prefix true question_word_prefix line)) as [p2 A2].
    apply (substring_of_suffix _ _ (p1 ++ p2)%string).
    rewrite str_app_assoc, <- A2. exact A1.
  - destruct (sub_prefix_rest false option_prefix line) as [pre A].
    apply (substring_of_suffix _ _ pre A).
  - destruct (sub_prefix_rest true answer_prefix line) as [pre A].
    apply (substring_of_suffix _ _ pre A).
Qed.

Lemma rstrip_no_trailing_space s : ends_with_space (rstrip s) = false.
Proof.
  induction s as [|c s IH]; simpl.
  - reflexivity.
  - destruct (Char.isspace c && is_empty (rstrip s)) eqn:E; simpl.
    + reflexivity.
    + destruct (is_empty (rstrip s)); [|exact IH].
      rewrite andb_true_r in E. exact E.
Qed.

Lemma strip_trimmed s :
  starts_with_space (strip s) = false /\ ends_with_space (strip s) = false.
Proof.
  unfold strip. split; [|apply rstrip_no_trailing_space].
  pose proof (rstrip_head (lstrip s) (lstrip_head s)) as H.
  unfold starts_with_space. destruct (rstrip (lstrip s)); [reflexivity | exact H].
Qed.

(** X14.  The text a normaliser returns neither starts nor ends with a
    white-space character. *)
Theorem clean_returns_trimmed :
  forall line : string,
    (starts_with_space (clean_topic line) = false /\
     ends_with_space (clean_topic line) = false) /\
    (starts_with_space (clean_question line) = false /\
     ends_with_space (clean_question line) = false) /\
    (starts_with_space (clean_option line) = false /\
     ends_with_space (clean_option line) = false) /\
    (starts_with_space (clean_answer line) = false /\
     ends_with_space (clean_answer line) = false).
Proof.
  intros line. repeat split; apply strip_trimmed.
Qed.

(** ** The classifier at its edge *)

(** X15.  [is_topic] raises exactly on the empty string: there its
    first-character test has nothing to read; on every other line it
    answers. *)
Theorem is_topic_raises_iff_empty :
  forall line : string,
    (exists e, is_topic line = Raise e) <-> line = EmptyString.
Proof.
  intros line. split.
  - intros [e H]. destruct line as [|c s]; [reflexivity|].
    destruct (is_topic_ok (String c s) eq_refl) as [b E].
    rewrite E in H. discriminate.
  - intros ->. exists IndexError. reflexivity.
Qed.

(** ** Which lines can be options *)












(** ** Where the texts of the output come from *)

Lemma inner_keeps_open raw :
  is_topic (strip raw) = Ok false -> is_question (strip raw) = false ->
  keeps_open raw = true.
Proof.
  intros Ht Hq. unfold keeps_open, is_topic_line, is_question_line.
  rewrite Ht, Hq, andb_false_r. reflexivity.
Qed.

Lemma inner_option_line raw :
  is_topic (strip raw) = Ok false -> is_question (strip raw) = false ->
  is_option (strip raw) = true -> is_option_line raw = true.
Proof.
  intros Ht Hq Ho. unfold is_option_line, nonblank.
  rewrite (inner_keeps_open raw Ht Hq), (is_topic_false_nonempty _ Ht), Ho.
  reflexivity.
Qed.

Lemma inner_answer_line raw :
  is_topic (strip raw) = Ok false -> is_question (strip raw) = false ->
  is_option (strip raw) = false -> is_answer (strip raw) = true ->
  is_answer_line raw = true.
Proof.
  intros Ht Hq Ho Ha. unfold is_answer_line.
  rewrite (inner_keeps_open raw Ht Hq), (is_topic_false_nonempty _ Ht), Ho, Ha.
  reflexivity.
Qed.

Lemma inner_continuation_line raw :
  is_topic (strip raw) = Ok false -> is_question (strip raw) = false ->
  is_option (strip raw) = false -> is_answer (strip raw) = false ->
  is_continuation_line raw = true.
Proof.
  intros Ht Hq Ho Ha. unfold is_continuation_line, nonblank.
  rewrite (inner_keeps_open raw Ht Hq), (is_topic_false_nonempty _ Ht), Ho, Ha.
  reflexivity.
Qed.

Lemma folded_text_snoc conts raw :
  folded_text (conts ++ [raw]) = (folded_text conts ++ " " ++ strip raw)%string.
Proof.
  unfold folded_text, join_all.
  induction conts as [|c conts IH]; cbn [app map fold_right].
  - rewrite str_app_empty_r. reflexivity.
  - rewrite IH, !str_app_assoc. reflexivity.
Qed.

Section Provenance.

Variable images : list Image.
Variable links : list string.
Variable lines : list string.

Lemma folded_from_nil : folded_from lines EmptyString.
Proof. exists []. split; [constructor | reflexivity]. Qed.

Lemma folded_from_snoc rest raw :
  In raw lines -> is_continuation_line raw = true ->
  folded_from lines rest ->
  folded_from lines (rest ++ " " ++ strip raw)%string.
Proof.
  intros Hin Hc [conts [Hall E]]. exists (conts ++ [raw]). split.
  - apply Forall_app. split; [exact Hall|]. constructor; [|constructor]. auto.
  - rewrite folded_text_snoc, E. reflexivity.
Qed.

Lemma topic_or_default_from t :
  (forall name, t = Some name -> topic_from lines name) ->
  topic_from lines (topic_or_default t).
Proof.
  intros H. unfold topic_or_default. destruct t as [name|]; [|left; reflexivity].
  destruct (is_empty name); [left; reflexivity | apply H; reflexivity].
Qed.

Lemma commit_from st q sd' :
  state_from lines st -> current_question st = Some q ->
  commit images links st q = Ok sd' ->
  stored_from lines sd'.
Proof.
  intros [Hs [Ht [Hq Ho]]] Eq C.
  destruct (commit_ok images links st q) as [before [last [B C']]].
  rewrite C' in C. inversion C; subst sd'. clear C.
  assert (Hb : stored_from lines (before ++ [last])).
  { rewrite <- B. destruct (structured_data st); [|exact Hs].
    constructor; [|constructor]. split; [|constructor].
    apply topic_or_default_from, Ht. }
  unfold stored_from in *. apply Forall_app in Hb. destruct Hb as [H1 H2].
  apply Forall_app. split; [exact H1|].
  inversion H2 as [|? ? [Hn Hl] _]; subst. constructor; [|constructor].
  split; [exact Hn|]. simpl. apply Forall_app. split; [exact Hl|].
  constructor; [|constructor]. split; [|exact Ho].
  destruct (Hq q Eq) as [Q A]. split; [exact Q | exact A].
Qed.

Lemma process_line_from st raw st' :
  In raw lines ->
  state_from lines st ->
  process_line images links st raw = Ok st' ->
  state_from lines st'.
Proof.
  intros Hin Hst. pose proof Hst as [Hs [Ht [Hq Ho]]].
  destruct (line_cases raw) as [H | [H | [[H Hqn] | [H Hqn]]]].
  - rewrite (process_line_blank _ _ _ _ H). intros E; inversion E; subst; auto.
  - rewrite (process_line_topic _ _ _ _ H).
    assert (Hname : topic_from lines (clean_topic (strip raw))).
    { right. exists raw. split; [exact Hin|].
      split; [apply (topic_line_of_is_topic _ H) | reflexivity]. }
    destruct (current_question st) as [q|] eqn:Eq.
    + destruct (commit images links st q) as [sd'|] eqn:C; simpl; [|discriminate].
      intros E; inversion E; subst; simpl.
      split; [|split; [|split]]; simpl.
      * apply Forall_app. split; [apply (commit_from st q sd' Hst Eq C)|].
        constructor; [|constructor]. split; [exact Hname | constructor].
      * intros name N; inversion N; subst; exact Hname.
      * intros q' N; discriminate.
      * constructor.
    + simpl. intros E; inversion E; subst; simpl.
      split; [|split; [|split]]; simpl.
      * apply Forall_app. split; [exact Hs|].
        constructor; [|constructor]. split; [exact Hname | constructor].
      * intros name N; inversion N; subst; exact Hname.
      * rewrite Eq. intros q' N; discriminate.
      * exact Ho.
  - rewrite (process_line_question _ _ _ _ H Hqn).
    assert (Hnew : question_from lines (new_question (clean_question (strip raw)))).
    { split.
      - exists raw, EmptyString. split; [exact Hin|].
        split; [apply (question_line_of _ H Hqn)|].
        split; [apply folded_from_nil|].
        simpl. rewrite str_app_empty_r. reflexivity.
      - intros a N; discriminate. }
    destruct (current_question st) as [q|] eqn:Eq.
    + destruct (commit images links st q) as [sd'|] eqn:C; simpl; [|discriminate].
      intros E; inversion E; subst; simpl.
      split; [|split; [|split]]; simpl.
      * apply (commit_from st q sd' Hst Eq C).
      * exact Ht.
      * intros q' N; inversion N; subst; exact Hnew.
      * constructor.
    + simpl. intros E; inversion E; subst; simpl.
      split; [|split; [|split]]; simpl.
      * exact Hs.
      * exact Ht.
      * intros q' N; inversion N; subst; exact Hnew.
      * constructor.
  - rewrite (process_line_inner _ _ _ _ H Hqn).
    destruct (current_question st) as [q|] eqn:Eq.
    2:{ intros E; inversion E; subst; auto. }
    destruct (Hq q eq_refl) as [[qraw [qrest [Q1 [Q2 [Qf Q3]]]]] QA].
    destruct (is_option (strip raw)) eqn:Eo.
    { intros E; inversion E; subst; simpl.
      split; [exact Hs|]. split; [exact Ht|]. split; simpl.
      - intros q' N; inversion N; subst. apply (Hq q' eq_refl).
      - apply Forall_app. split; [exact Ho|]. constructor; [|constructor].
        exists raw, EmptyString. split; [exact Hin|].
        split; [apply (inner_option_line _ H Hqn Eo)|].
        split; [apply folded_from_nil|].
        rewrite str_app_empty_r. reflexivity. }
    destruct (is_answer (strip raw)) eqn:Ea.
    { intros E; inversion E; subst; simpl.
      split; [exact Hs|]. split; [exact Ht|]. split; simpl; [|exact Ho].
      intros q' N; inversion N; subst. split.
      - exists qraw, qrest. simpl. auto.
      - simpl. intros a A; inversion A; subst. exists raw.
        split; [exact Hin|].
        split; [apply (inner_answer_line _ H Hqn Eo Ea) | reflexivity]. }
    destruct (is_nil (current_options st)) eqn:En; simpl.
    + destruct (is_empty (question q)); simpl.
      * intros E; inversion E; subst. rewrite <- Eq in Hq. exact Hst.
      * intros E; inversion E; subst; simpl.
        split; [exact Hs|]. split; [exact Ht|]. split; simpl; [|exact Ho].
        intros q' N; inversion N; subst. split.
        -- exists qraw, (qrest ++ " " ++ strip raw)%string. simpl.
           split; [exact Q1|]. split; [exact Q2|].
           split; [apply (folded_from_snoc _ _ Hin
                            (inner_continuation_line _ H Hqn Eo Ea) Qf)|].
           rewrite Q3, str_app_assoc. reflexivity.
        -- simpl. exact QA.
    + destruct (nonempty_snoc _ En) as [l' [x E]]. rewrite E.
      rewrite update_last_snoc. simpl.
      intros E'; inversion E'; subst; simpl.
      split; [exact Hs|]. split; [exact Ht|]. split; simpl.
      * intros q' N; inversion N; subst. apply (Hq q' eq_refl).
      * rewrite E in Ho. apply Forall_app in Ho. destruct Ho as [Ho1 Ho2].
        apply Forall_app. split; [exact Ho1|].
        inversion Ho2 as [|? ? [oraw [orest [O1 [O2 [Of O3]]]]] _]; subst.
        constructor; [|constructor].
        exists oraw, (orest ++ " " ++ strip raw)%string.
        split; [exact O1|]. split; [exact O2|].
        split; [apply (folded_from_snoc _ _ Hin
                         (inner_continuation_line _ H Hqn Eo Ea) Of)|].
        rewrite str_app_assoc. reflexivity.
Qed.

Lemma run_lines_from block : forall st st',
  (forall raw, In raw block -> In raw lines) ->
  state_from lines st ->
  run_lines images links st block = Ok st' ->
  state_from lines st'.
Proof.
  induction block as [|raw rest IH]; intros st st' Hsub Hst; simpl.
  - intros E; inversion E; subst; exact Hst.
  - destruct (process_line images links st raw) as [st1|] eqn:E1; simpl;
      [|discriminate].
    apply IH.
    + intros r Hr. apply Hsub. right. exact Hr.
    + apply (process_line_from st raw st1); [apply Hsub; left; reflexivity | exact Hst | exact E1].
Qed.

End Provenance.

(** X18.  Every text in the output of [parse_mcqs] comes from lines of the
    input of the matching kind: a topic name is "General Questions" or a
    normalised topic line; a question's text is a normalised question line
    followed by nothing but continuation lines of the input, each stripped
    and put after one space; each option is a normalised option line
    followed in the same way by nothing but continuation lines; an answer is
    a normalised answer line. *)
Theorem parse_mcqs_texts_from_lines :
  forall (text : string) (images : list Image) (links : list string),
    exists out,
      parse_mcqs text images links = Ok out /\
      stored_from (split_on newline text) out.
Proof.
  intros text images links.
  destruct (parse_mcqs_returns text images links) as [out P].
  exists out. split; [exact P|].
  unfold parse_mcqs, parse_raw in P.
  destruct (run_lines images links initial_state (split_on newline text))
    as [st|] eqn:E; simpl in P; [|discriminate].
  assert (Hst : state_from (split_on newline text) st).
  { apply (run_lines_from images links _ _ initial_state st (fun r H => H)); [|exact E].
    split; [constructor|]. split; [intros n N; discriminate|].
    split; [intros q N; discriminate | constructor]. }
  destruct (finish images links st) as [sd|] eqn:F; simpl in P; [|discriminate].
  inversion P; subst out.
  assert (Hsd : stored_from (split_on newline text) sd).
  { unfold finish in F. destruct (current_question st) as [q|] eqn:Eq.
    - apply (commit_from images links _ st q sd Hst Eq F).
    - inversion F; subst. apply Hst. }
  rewrite assemble_filter. unfold stored_from in *.
  rewrite Forall_forall in *. intros t Hin. apply filter_In in Hin.
  apply Hsd. apply Hin.
Qed.

(** ** How much a normaliser cuts *)

Lemma str_length_app (a b : string) :
  String.length (a ++ b) = String.length a + String.length b.
Proof. induction a as [|c a IH]; simpl; [reflexivity | rewrite IH; reflexivity]. Qed.

Lemma run_consumes ic r : forall s k x,
  Re.run ic r s k = Some x ->
  exists pre rest,
    s = (pre ++ rest)%string /\ k rest = Some x /\
    min_length r <= String.length pre.
Proof.
  induction r as [|c|p|r1 IH1 r2 IH2|r1 IH1 r2 IH2|r IH|p|p];
    intros s k x; simpl.
  - intros H. exists EmptyString, s. auto.
  - destruct s as [|y s]; [discriminate|].
    destruct (Re.chr_eq ic c y); [|discriminate].
    intros H. exists (String y EmptyString), s. auto.
  - destruct s as [|y s]; [discriminate|].
    destruct (p y); [|discriminate].
    intros H. exists (String y EmptyString), s. auto.
  - intros H. destruct (IH1 _ _ _ H) as [pre1 [rest1 [A1 [B1 L1]]]].
    destruct (IH2 _ _ _ B1) as [pre2 [rest2 [A2 [B2 L2]]]].
    exists (pre1 ++ pre2)%string, rest2. subst.
    rewrite str_app_assoc, str_length_app. repeat split; auto. lia.
  - destruct (Re.run ic r1 s k) as [y|] eqn:E.
    + intros H. inversion H; subst y.
      destruct (IH1 _ _ _ E) as [pre [rest [A [B L]]]].
      exists pre, rest. repeat split; auto. lia.
    + intros H. destruct (IH2 _ _ _ H) as [pre [rest [A [B L]]]].
      exists pre, rest. repeat split; auto. lia.
  - destruct (Re.run ic r s k) as [y|] eqn:E.
    + intros H. inversion H; subst y.
      destruct (IH _ _ _ E) as [pre [rest [A [B L]]]].
      exists pre, rest. repeat split; auto. lia.
    + intros H. exists EmptyString, s. simpl. auto.
  - intros H. destruct (star_rest _ _ _ _ H) as [pre [rest [A B]]].
    exists pre, rest. repeat split; auto. lia.
  - destruct s as [|y s]; [discriminate|].
    destruct (p y); [|discriminate].
    intros H. destruct (star_rest _ _ _ _ H) as [pre [rest [A B]]].
    exists (String y pre), rest. subst. simpl. repeat split; auto. lia.
Qed.

Lemma sub_prefix_shorter ic r s :
  Re.matches ic r s = true ->
  String.length (Re.sub_prefix ic r s) + min_length r <= String.length s.
Proof.
  unfold Re.matches, Re.sub_prefix, Re.rmatch.
  destruct (Re.run ic r s Some) as [x|] eqn:E; [|discriminate].
  intros _. destruct (run_consumes _ _ _ _ _ E) as [pre [rest [A [B L]]]].
  inversion B; subst. rewrite str_length_app. lia.
Qed.

Lemma sub_prefix_length ic r s :
  String.length (Re.sub_prefix ic r s) <= String.length s.
Proof.
  destruct (sub_prefix_rest ic r s) as [pre A].
  rewrite A at 2. rewrite str_length_app. lia.
Qed.

Lemma strip_length s : String.length (strip s) <= String.length s.
Proof.
  destruct (strip_rest s) as [pre [post A]].
  rewrite A at 2. rewrite !str_length_app. lia.
Qed.






































(** ** The order of the questions *)

Lemma flat_questions_filter sd :
  flat_map questions (filter has_questions sd) = flat_map questions sd.
Proof.
  induction sd as [|t sd IH]; simpl; [reflexivity|].
  unfold has_questions at 1. destruct (questions t) eqn:E; simpl.
  - exact IH.
  - rewrite E, IH. reflexivity.
Qed.

Section Order.

Variable images : list Image.
Variable links : list string.

Lemma commit_flat st q sd' :
  commit images links st q = Ok sd' ->
  flat_map questions sd' =
    flat_map questions (structured_data st)
    ++ [correlated q (current_options st) images links (image_counter st)].
Proof.
  intros C.
  destruct (commit_ok images links st q) as [before [last [B C']]].
  rewrite C' in C. inversion C; subst sd'. clear C.
  assert (F : flat_map questions (before ++ [last])
              = flat_map questions (structured_data st)).
  { rewrite <- B. destruct (structured_data st); reflexivity. }
  rewrite flat_map_app in *. simpl in *. rewrite app_nil_r in *.
  rewrite <- F, <- app_assoc. reflexivity.
Qed.

Lemma filter_snoc done raw :
  filter is_question_line (done ++ [raw]) =
  filter is_question_line done ++ (if is_question_line raw then [raw] else []).
Proof. rewrite filter_app. simpl. destruct (is_question_line raw); reflexivity. Qed.

Lemma process_line_order done st raw st' :
  in_line_order done st ->
  process_line images links st raw = Ok st' ->
  in_line_order (done ++ [raw]) st'.
Proof.
  unfold in_line_order, open_questions. rewrite filter_snoc. intros Hi.
  destruct (line_cases raw) as [H | [H | [[H Hq] | [H Hq]]]].
  - rewrite (process_line_blank _ _ _ _ H), (question_line_blank _ H).
    intros E; inversion E; subst. rewrite app_nil_r. exact Hi.
  - rewrite (process_line_topic _ _ _ _ H).
    replace (is_question_line raw) with false
      by (unfold is_question_line; rewrite H; reflexivity).
    rewrite app_nil_r.
    destruct (current_question st) as [q|] eqn:Eq.
    + destruct (commit images links st q) as [sd'|] eqn:C; simpl; [|discriminate].
      intros E; inversion E; subst; simpl.
      rewrite flat_map_app, (commit_flat st q sd' C). simpl. rewrite !app_nil_r.
      destruct (Forall2_snoc_inv _ _ _ _ Hi) as [m [y [Em [Hm Rq]]]].
      rewrite Em. apply Forall2_app; [exact Hm|]. constructor; [|constructor].
      exact Rq.
    + simpl. intros E; inversion E; subst; simpl. rewrite Eq.
      rewrite flat_map_app. simpl. rewrite !app_nil_r in *. exact Hi.
  - rewrite (process_line_question _ _ _ _ H Hq), (question_line_of _ H Hq).
    assert (Rn : question_of_line (new_question (clean_question (strip raw))) raw).
    { exists EmptyString. simpl. rewrite str_app_empty_r. reflexivity. }
    destruct (current_question st) as [q|] eqn:Eq.
    + destruct (commit images links st q) as [sd'|] eqn:C; simpl; [|discriminate].
      intros E; inversion E; subst; simpl.
      rewrite (commit_flat st q sd' C).
      destruct (Forall2_snoc_inv _ _ _ _ Hi) as [m [y [Em [Hm Rq]]]].
      rewrite Em. apply Forall2_app.
      * apply Forall2_app; [exact Hm|]. constructor; [exact Rq | constructor].
      * constructor; [exact Rn | constructor].
    + simpl. intros E; inversion E; subst; simpl.
      rewrite app_nil_r in Hi. apply Forall2_app; [exact Hi|].
      constructor; [exact Rn | constructor].
  - rewrite (process_line_inner _ _ _ _ H Hq).
    replace (is_question_line raw) with false
      by (unfold is_question_line; rewrite H, Hq, andb_false_r; reflexivity).
    rewrite app_nil_r.
    destruct (current_question st) as [q|] eqn:Eq.
    2:{ intros E; inversion E; subst. rewrite Eq. exact Hi. }
    destruct (is_option (strip raw)).
    { intros E; inversion E; subst; simpl. exact Hi. }
    destruct (Forall2_snoc_inv _ _ _ _ Hi) as [m [y [Em [Hm [rest Rq]]]]].
    destruct (is_answer (strip raw)).
    { intros E; inversion E; subst; simpl. rewrite Em.
      apply Forall2_app; [exact Hm|]. constructor; [|constructor].
      exists rest. exact Rq. }
    destruct (negb (is_nil (current_options st))).
    { destruct (update_last _ (current_options st)); simpl; [|discriminate].
      intros E; inversion E; subst; simpl. exact Hi. }
    destruct (negb (is_empty (question q))).
    + intros E; inversion E; subst; simpl. rewrite Em.
      apply Forall2_app; [exact Hm|]. constructor; [|constructor].
      exists (rest ++ " " ++ strip raw)%string. simpl.
      rewrite Rq, str_app_assoc. reflexivity.
    + intros E; inversion E; subst. rewrite Eq. exact Hi.
Qed.

Lemma run_lines_order block : forall done st st',
  in_line_order done st ->
  run_lines images links st block = Ok st' ->
  in_line_order (done ++ block) st'.
Proof.
  induction block as [|raw rest IH]; intros done st st' Hi; simpl.
  - intros E; inversion E; subst. rewrite app_nil_r. exact Hi.
  - destruct (process_line images links st raw) as [st1|] eqn:E1; simpl;
      [|discriminate].
    intros E. replace (done ++ raw :: rest) with ((done ++ [raw]) ++ rest)
      by (rewrite <- app_assoc; reflexivity).
    apply (IH _ st1 st'); [|exact E].
    apply (process_line_order done st raw st1 Hi E1).
Qed.

End Order.

(** X21.  The questions of the output, read topic after topic, are in the
    order of the question lines of the text, one for each: the text of the
    i-th question starts with the normalised text of the i-th question
    line. *)
Theorem parse_mcqs_keeps_question_order :
  forall (text : string) (images : list Image) (links : list string),
    exists out,
      parse_mcqs text images links = Ok out /\
      Forall2 question_of_line
              (flat_map questions out)
              (filter is_question_line (split_on newline text)).
Proof.
  intros text images links.
  destruct (parse_mcqs_returns text images links) as [out P].
  exists out. split; [exact P|].
  unfold parse_mcqs, parse_raw in P.
  destruct (run_lines images links initial_state (split_on newline text))
    as [st|] eqn:E; simpl in P; [|discriminate].
  pose proof (run_lines_order images links _ [] initial_state st
                (Forall2_nil _) E) as Hi.
  simpl in Hi. unfold in_line_order, open_questions in Hi.
  destruct (finish images links st) as [sd|] eqn:F; simpl in P; [|discriminate].
  inversion P; subst out.
  rewrite assemble_filter, flat_questions_filter.
  unfold finish in F. destruct (current_question st) as [q|] eqn:Eq.
  - rewrite (commit_flat images links st q sd F).
    destruct (Forall2_snoc_inv _ _ _ _ Hi) as [m [y [Em [Hm Rq]]]].
    rewrite Em. apply Forall2_app; [exact Hm|]. constructor; [|constructor].
    exact Rq.
  - inversion F; subst. rewrite app_nil_r in Hi. exact Hi.
Qed.

(** ** Which lines can be answers or continuations *)



(** ** The order of the topics *)

Section TopicOrder.

Variable images : list Image.
Variable links : list string.

Lemma commit_topics st q sd' :
  commit images links st q = Ok sd' ->
  map topic sd' =
    if is_nil (structured_data st)
    then [topic_or_default (current_topic st)]
    else map topic (structured_data st).
Proof.
  intros C.
  destruct (commit_ok images links st q) as [before [last [B C']]].
  rewrite C' in C. inversion C; subst sd'. clear C.
  assert (F : map topic (before ++ [last]) =
              if is_nil (structured_data st)
              then [topic_or_default (current_topic st)]
              else map topic (structured_data st)).
  { rewrite <- B. destruct (structured_data st); reflexivity. }
  rewrite <- F, !map_app. reflexivity.
Qed.

Lemma commit_topics_order done st q sd' :
  topics_in_line_order done st ->
  commit images links st q = Ok sd' ->
  (exists prefix,
      (prefix = [] \/ prefix = ["General Questions"]) /\
      map topic sd' =
        prefix ++ map (fun raw => clean_topic (strip raw))
                      (filter is_topic_line done)) /\
  sd' <> [].
Proof.
  intros [[prefix [Hp Hm]] Hn] C. pose proof (commit_topics st q sd' C) as T.
  destruct (structured_data st) as [|t sd] eqn:E; simpl in T.
  - rewrite (Hn eq_refl) in T. simpl in T, Hm. split.
    + exists ["General Questions"]. split; [auto|].
      symmetry in Hm. apply app_eq_nil in Hm. destruct Hm as [_ Hm].
      rewrite Hm. exact T.
    + intros N. rewrite N in T. discriminate.
  - split.
    + exists prefix. split; [exact Hp|]. rewrite T. exact Hm.
    + intros N. rewrite N in T. discriminate.
Qed.

Lemma topic_filter_snoc done raw :
  filter is_topic_line (done ++ [raw]) =
  filter is_topic_line done ++ (if is_topic_line raw then [raw] else []).
Proof. rewrite filter_app. simpl. destruct (is_topic_line raw); reflexivity. Qed.

Lemma topic_line_false raw :
  is_empty (strip raw) = true \/ is_topic (strip raw) = Ok false ->
  is_topic_line raw = false.
Proof.
  unfold is_topic_line. intros [H | H]; rewrite H; [|reflexivity].
  destruct (is_topic (strip raw)) as [[|]|]; reflexivity.
Qed.

Lemma process_line_topics_order done st raw st' :
  topics_in_line_order done st ->
  process_line images links st raw = Ok st' ->
  topics_in_line_order (done ++ [raw]) st'.
Proof.
  intros Hi. pose proof Hi as [[prefix [Hp Hm]] Hn].
  unfold topics_in_line_order. rewrite topic_filter_snoc.
  destruct (line_cases raw) as [H | [H | [[H Hq] | [H Hq]]]].
  - rewrite (process_line_blank _ _ _ _ H), (topic_line_false raw (or_introl H)).
    intros E; inversion E; subst. rewrite app_nil_r. exact Hi.
  - rewrite (process_line_topic _ _ _ _ H), (topic_line_of_is_topic _ H).
    destruct (current_question st) as [q|] eqn:Eq.
    + destruct (commit images links st q) as [sd'|] eqn:C; simpl; [|discriminate].
      destruct (commit_topics_order done st q sd' Hi C) as [[p' [Hp' Hm']] _].
      intros E; inversion E; subst; simpl. split.
      * exists p'. split; [exact Hp'|].
        rewrite !map_app, Hm', <- app_assoc. reflexivity.
      * intros N. apply app_eq_nil in N. destruct N as [_ N]. discriminate.
    + simpl. intros E; inversion E; subst; simpl. split.
      * exists prefix. split; [exact Hp|].
        rewrite !map_app, Hm, <- app_assoc. reflexivity.
      * intros N. apply app_eq_nil in N. destruct N as [_ N]. discriminate.
  - rewrite (process_line_question _ _ _ _ H Hq),
            (topic_line_false raw (or_intror H)), app_nil_r.
    destruct (current_question st) as [q|] eqn:Eq.
    + destruct (commit images links st q) as [sd'|] eqn:C; simpl; [|discriminate].
      destruct (commit_topics_order done st q sd' Hi C) as [Hx Hne].
      intros E; inversion E; subst; simpl. split; [exact Hx|].
      intros N. contradiction.
    + simpl. intros E; inversion E; subst; simpl. split; [eauto | exact Hn].
  - rewrite (process_line_inner _ _ _ _ H Hq),
            (topic_line_false raw (or_intror H)), app_nil_r.
    destruct (current_question st) as [q|].
    2:{ intros E; inversion E; subst. exact Hi. }
    destruct (is_option (strip raw)).
    { intros E; inversion E; subst; simpl. exact Hi. }
    destruct (is_answer (strip raw)).
    { intros E; inversion E; subst; simpl. exact Hi. }
    destruct (negb (is_nil (current_options st))).
    { destruct (update_last _ (current_options st)); simpl; [|discriminate].
      intros E; inversion E; subst; simpl. exact Hi. }
    destruct (negb (is_empty (question q)));
      intros E; inversion E; subst; simpl; exact Hi.
Qed.

Lemma run_lines_topics_order block : forall done st st',
  topics_in_line_order done st ->
  run_lines images links st block = Ok st' ->
  topics_in_line_order (done ++ block) st'.
Proof.
  induction block as [|raw rest IH]; intros done st st' Hi; simpl.
  - intros E; inversion E; subst. rewrite app_nil_r. exact Hi.
  - destruct (process_line images links st raw) as [st1|] eqn:E1; simpl;
      [|discriminate].
    intros E. replace (done ++ raw :: rest) with ((done ++ [raw]) ++ rest)
      by (rewrite <- app_assoc; reflexivity).
    apply (IH _ st1 st'); [|exact E].
    apply (process_line_topics_order done st raw st1 Hi E1).
Qed.

End TopicOrder.

(** X23.  The topics of the output keep the order of the topic lines: the
    output is what is left, once the topics without questions are dropped,
    of a list that has one record per topic line, in order and named by the
    normalised line, possibly after one record named "General
    Questions". *)
Theorem parse_mcqs_keeps_topic_order :
  forall (text : string) (images : list Image) (links : list string),
    exists prefix sd,
      (prefix = [] \/ prefix = ["General Questions"]) /\
      map topic sd =
        prefix ++ map (fun raw => clean_topic (strip raw))
                      (filter is_topic_line (split_on newline text)) /\
      parse_mcqs text images links = Ok (filter has_questions sd).
Proof.
  intros text images links. unfold parse_mcqs, parse_raw.
  destruct (run_lines_ok images links (split_on newline text) initial_state)
    as [st E].
  assert (Hi : topics_in_line_order (split_on newline text) st).
  { apply (run_lines_topics_order images links _ [] initial_state st); [|exact E].
    split; [exists []; auto | reflexivity]. }
  rewrite E. simpl. unfold finish.
  destruct (current_question st) as [q|] eqn:Eq.
  - destruct (commit_ok images links st q) as [b [l [_ C]]].
    destruct (commit_topics_order images links _ st q _ Hi C) as [[p [Hp Hm]] _].
    rewrite C. simpl. exists p. eexists. split; [exact Hp|].
    split; [exact Hm|]. rewrite assemble_filter. reflexivity.
  - destruct Hi as [[p [Hp Hm]] _]. simpl.
    exists p, (structured_data st). split; [exact Hp|].
    split; [exact Hm|]. rewrite assemble_filter. reflexivity.
Qed.

(** ** Leading indicator words *)














(** * Properties of the bot *)

Lemma add_options_unlabelled options : forall i question_text,
  List.length Bot.option_labels <= i ->
  Bot.add_options i options question_text = question_text.
Proof.
  induction options as [|o rest IH]; intros i t Hi; simpl.
  - reflexivity.
  - replace (i <? 6) with false by (symmetry; apply Nat.ltb_ge; exact Hi).
    apply IH. simpl in *. lia.
Qed.

Lemma add_options_firstn options : forall i question_text,
  Bot.add_options i options question_text =
  Bot.add_options i (firstn (List.length Bot.option_labels - i) options)
                  question_text.
Proof.
  induction options as [|o rest IH]; intros i t.
  - rewrite firstn_nil. reflexivity.
  - destruct (Nat.ltb_spec i (List.length Bot.option_labels)) as [L|L].
    + replace (List.length Bot.option_labels - i)
        with (S (List.length Bot.option_labels - (i + 1))) by lia.
      cbn [firstn Bot.add_options]. apply IH.
    + replace (List.length Bot.option_labels - i) with 0 by lia.
      cbn [firstn]. rewrite add_options_unlabelled by exact L. reflexivity.
Qed.

(** X26.  [send_single_question] shows the first six options only: a
    question sends exactly what it would send with its options cut after
    the sixth. *)
Theorem only_six_options_shown :
  forall (delivers : nat -> Bot.Message -> bool)
         (path_exists can_open : string -> bool)
         (q : Question) (q_num : nat) (c : Bot.Chat),
    Bot.send_single_question delivers path_exists can_open q q_num c =
    Bot.send_single_question delivers path_exists can_open
      (set_options q (firstn 6 (options q))) q_num c.
Proof.
  intros delivers path_exists can_open q q_num c.
  unfold Bot.send_single_question. cbn [set_options question options answer
                                         image video_link].
  rewrite (add_options_firstn (options q) 0). reflexivity.
Qed.

Section BotRuns.

Variable delivers : nat -> Bot.Message -> bool.
Variable path_exists : string -> bool.
Variable can_open : string -> bool.

(** Every text message goes through. *)
Hypothesis texts_delivered :
  forall i text parse_mode, delivers i (Bot.ReplyText text parse_mode) = true.

Lemma reply_text_delivered text parse_mode c :
  Bot.reply_text delivers text parse_mode c =
    (Ok tt, Bot.mkChat (Bot.sent c ++ [Bot.ReplyText text parse_mode])
                       (Bot.calls c + 1)).
Proof.
  unfold Bot.reply_text, Bot.reply. rewrite texts_delivered. reflexivity.
Qed.

Lemma photo_block_returns (q : Question) c :
  exists c',
    match image q with
    | Some image_path =>
        if negb (is_empty image_path) && path_exists image_path then
          Bot.io_try
            (if can_open image_path
             then Bot.reply_photo delivers image_path Bot.photo_caption
             else Bot.lift (Raise (RuntimeError "open failed")))
            (fun _ => Bot.ret tt)
        else Bot.ret tt
    | None => Bot.ret tt
    end c = (Ok tt, c') /\
    Bot.calls c <= Bot.calls c' <= Bot.calls c + 1.
Proof.
  destruct (image q) as [p|]; [|exists c; split; [reflexivity | lia]].
  destruct (negb (is_empty p) && path_exists p);
    [|exists c; split; [reflexivity | lia]].
  unfold Bot.io_try. destruct (can_open p).
  - unfold Bot.reply_photo, Bot.reply.
    destruct (delivers (Bot.calls c) (Bot.ReplyPhoto p Bot.photo_caption));
      eexists; (split; [reflexivity | simpl; lia]).
  - exists c. split; [reflexivity | lia].
Qed.

Lemma send_single_question_returns q q_num c :
  exists c',
    Bot.send_single_question delivers path_exists can_open q q_num c = (Ok tt, c') /\
    Bot.calls c + 1 <= Bot.calls c' <= Bot.calls c + 3.
Proof.
  unfold Bot.send_single_question, Bot.io_bind.
  rewrite reply_text_delivered.
  match goal with
  | |- context [match image q with Some _ => _ | None => _ end ?c0] =>
      destruct (photo_block_returns q c0) as [c1 [E1 B1]]
  end.
  rewrite E1. simpl in B1.
  destruct (video_link q) as [l|].
  - destruct (negb (is_empty l)).
    + rewrite reply_text_delivered. eexists. split; [reflexivity | simpl; lia].
    + exists c1. split; [reflexivity | lia].
  - exists c1. split; [reflexivity | lia].
Qed.

Lemma send_questions_returns qs : forall idx c,
  exists c', Bot.send_questions delivers path_exists can_open idx qs c = (Ok tt, c').
Proof.
  induction qs as [|q rest IH]; intros idx c; simpl.
  - exists c. reflexivity.
  - unfold Bot.io_bind.
    destruct (send_single_question_returns q idx c) as [c1 [E1 _]]. rewrite E1.
    apply IH.
Qed.

Lemma send_extracted_content_returns data : forall c,
  exists c',
    Bot.send_extracted_content delivers path_exists can_open data c = (Ok tt, c').
Proof.
  induction data as [|t rest IH]; intros c; simpl.
  - exists c. reflexivity.
  - destruct (is_nil (questions t)); [apply IH|].
    unfold Bot.io_bind. rewrite reply_text_delivered.
    match goal with
    | |- context [Bot.send_questions _ _ _ 1 (questions t) ?c0] =>
        destruct (send_questions_returns (questions t) 1 c0) as [c1 E1]
    end.
    rewrite E1, reply_text_delivered. apply IH.
Qed.

End BotRuns.

(** X27.  When every text message is delivered, [send_single_question]
    returns normally whatever happens to the photo (a missing file, a file
    that cannot be opened, a photo that cannot be sent), and it makes
    between one and three calls to Telegram. *)
Theorem photo_failure_is_harmless :
  forall (delivers : nat -> Bot.Message -> bool)
         (path_exists can_open : string -> bool)
         (q : Question) (q_num : nat) (c : Bot.Chat),
    (forall i text parse_mode,
        delivers i (Bot.ReplyText text parse_mode) = true) ->
    exists c',
      Bot.send_single_question delivers path_exists can_open q q_num c
        = (Ok tt, c') /\
      Bot.calls c + 1 <= Bot.calls c' <= Bot.calls c + 3.
Proof.
  intros delivers path_exists can_open q q_num c H.
  apply send_single_question_returns. exact H.
Qed.

Lemma photo_failure_is_harmless_witness :
  exists c',
    Bot.send_single_question
      (fun _ m => match m with
                  | Bot.ReplyText _ _ => true
                  | Bot.ReplyPhoto _ _ => false
                  end)
      (fun _ => true) (fun _ => true)
      (mkQuestion "What is x?" ["p"] (Some "a") (Some "/tmp/i.png") (Some "http://v"))
      1 (Bot.mkChat [] 0) = (Ok tt, c') /\
    Bot.calls (Bot.mkChat [] 0) + 1 <= Bot.calls c'
      <= Bot.calls (Bot.mkChat [] 0) + 3.
Proof.
  apply (photo_failure_is_harmless
           (fun _ m => match m with
                       | Bot.ReplyText _ _ => true
                       | Bot.ReplyPhoto _ _ => false
                       end)
           (fun _ => true) (fun _ => true)
           (mkQuestion "What is x?" ["p"] (Some "a") (Some "/tmp/i.png")
                       (Some "http://v"))
           1 (Bot.mkChat [] 0)).
  reflexivity.
Defined.

(** X28.  [send_extracted_content] sends nothing for a topic without
    questions: it does what it would do with those topics removed. *)
Theorem empty_topics_not_sent :
  forall (delivers : nat -> Bot.Message -> bool)
         (path_exists can_open : string -> bool)
         (data : list Topic) (c : Bot.Chat),
    Bot.send_extracted_content delivers path_exists can_open data c =
    Bot.send_extracted_content delivers path_exists can_open
      (filter has_questions data) c.
Proof.
  intros delivers path_exists can_open data.
  induction data as [|t rest IH]; intros c; simpl.
  - reflexivity.
  - unfold has_questions at 1. destruct (is_nil (questions t)) eqn:E; simpl.
    + apply IH.
    + rewrite E. unfold Bot.io_bind.
      destruct (Bot.reply_text delivers _ Bot.markdown c) as [[|] c1];
        [|reflexivity].
      destruct (Bot.send_questions delivers path_exists can_open 1
                  (questions t) c1) as [[|] c2]; [|reflexivity].
      destruct (Bot.reply_text delivers _ None c2) as [[|] c3]; [|reflexivity].
      apply IH.
Qed.

(** X29.  A PDF from which nothing is extracted, be it unreadable or without
    questions: when the download works and the texts are delivered,
    [handle_document] sends the download notice, the extraction notice and
    the "Could not extract MCQs" warning, in this order, and nothing else;
    the error message is not sent. *)
Theorem nothing_extracted_warning :
  forall (delivers : nat -> Bot.Message -> bool)
         (path_exists can_open : string -> bool)
         (mkdtemp : result string) (get_file : result unit)
         (download_to_drive : string -> result unit)
         (fitz_open : string -> result Document)
         (document : Bot.Upload) (temp_dir : string) (c : Bot.Chat),
    (forall i text parse_mode,
        delivers i (Bot.ReplyText text parse_mode) = true) ->
    Bot.ends_with ".pdf" (lower (Bot.file_name document)) = true ->
    mkdtemp = Ok temp_dir ->
    get_file = Ok tt ->
    download_to_drive (path_join temp_dir (Bot.file_name document)) = Ok tt ->
    extract_mcqs_from_pdf fitz_open
      (path_join temp_dir (Bot.file_name document)) temp_dir = Ok [] ->
    Bot.handle_document delivers path_exists can_open mkdtemp get_file
                        download_to_drive fitz_open document c =
      (Ok tt,
       Bot.mkChat (Bot.sent c ++ [Bot.ReplyText Bot.msg_downloading None;
                                  Bot.ReplyText Bot.msg_extracting None;
                                  Bot.ReplyText Bot.msg_could_not_extract None])
                  (Bot.calls c + 3)).
Proof.
  intros delivers path_exists can_open mkdtemp get_file download_to_drive
         fitz_open document temp_dir c Hd Hp Hm Hg Hl He.
  unfold Bot.handle_document. rewrite Hp, Hm. cbn [negb].
  unfold Bot.io_bind, Bot.io_try, Bot.lift.
  rewrite (reply_text_delivered delivers Hd), Hg, Hl.
  rewrite (reply_text_delivered delivers Hd), He. cbn [is_nil].
  rewrite (reply_text_delivered delivers Hd). cbn [Bot.sent Bot.calls].
  rewrite <- !app_assoc. cbn [app].
  replace (Bot.calls c + 1 + 1 + 1) with (Bot.calls c + 3) by lia.
  reflexivity.
Qed.

Lemma nothing_extracted_warning_witness :
  Bot.handle_document (fun _ _ => true) (fun _ => true) (fun _ => true)
    (Ok "/tmp/d") (Ok tt) (fun _ => Ok tt)
    (fun _ => Raise (RuntimeError "cannot open"))
    (Bot.mkUpload "Quiz.PDF") (Bot.mkChat [] 0) =
  (Ok tt,
   Bot.mkChat (Bot.sent (Bot.mkChat [] 0)
               ++ [Bot.ReplyText Bot.msg_downloading None;
                   Bot.ReplyText Bot.msg_extracting None;
                   Bot.ReplyText Bot.msg_could_not_extract None])
              (Bot.calls (Bot.mkChat [] 0) + 3)).
Proof.
  apply (nothing_extracted_warning (fun _ _ => true) (fun _ => true)
           (fun _ => true) (Ok "/tmp/d") (Ok tt) (fun _ => Ok tt)
           (fun _ => Raise (RuntimeError "cannot open"))
           (Bot.mkUpload "Quiz.PDF") "/tmp/d" (Bot.mkChat [] 0));
    reflexivity.
Defined.

(** X30.  A PDF from which something is extracted: when the download works
    and the texts are delivered, [handle_document] sends the download
    notice, the extraction notice, then all that [send_extracted_content]
    sends, then "Extraction complete", and returns normally. *)
Theorem extraction_reported_complete :
  forall (delivers : nat -> Bot.Message -> bool)
         (path_exists can_open : string -> bool)
         (mkdtemp : result string) (get_file : result unit)
         (download_to_drive : string -> result unit)
         (fitz_open : string -> result Document)
         (document : Bot.Upload) (temp_dir : string) (c : Bot.Chat)
         (topic_data : Topic) (more : list Topic),
    (forall i text parse_mode,
        delivers i (Bot.ReplyText text parse_mode) = true) ->
    Bot.ends_with ".pdf" (lower (Bot.file_name document)) = true ->
    mkdtemp = Ok temp_dir ->
    get_file = Ok tt ->
    download_to_drive (path_join temp_dir (Bot.file_name document)) = Ok tt ->
    extract_mcqs_from_pdf fitz_open
      (path_join temp_dir (Bot.file_name document)) temp_dir
      = Ok (topic_data :: more) ->
    exists c1,
      Bot.send_extracted_content delivers path_exists can_open
        (topic_data :: more)
        (Bot.mkChat (Bot.sent c ++ [Bot.ReplyText Bot.msg_downloading None;
                                    Bot.ReplyText Bot.msg_extracting None])
                    (Bot.calls c + 2)) = (Ok tt, c1) /\
      Bot.handle_document delivers path_exists can_open mkdtemp get_file
                          download_to_drive fitz_open document c =
        (Ok tt,
         Bot.mkChat (Bot.sent c1 ++ [Bot.ReplyText Bot.msg_complete None])
                    (Bot.calls c1 + 1)).
Proof.
  intros delivers path_exists can_open mkdtemp get_file download_to_drive
         fitz_open document temp_dir c topic_data more Hd Hp Hm Hg Hl He.
  destruct (send_extracted_content_returns delivers path_exists can_open Hd
              (topic_data :: more)
              (Bot.mkChat (Bot.sent c ++ [Bot.ReplyText Bot.msg_downloading None;
                                          Bot.ReplyText Bot.msg_extracting None])
                          (Bot.calls c + 2))) as [c1 E1].
  exists c1. split; [exact E1|].
  unfold Bot.handle_document. rewrite Hp, Hm. cbn [negb].
  unfold Bot.io_bind, Bot.io_try, Bot.lift.
  rewrite (reply_text_delivered delivers Hd), Hg, Hl.
  rewrite (reply_text_delivered delivers Hd), He. cbn [is_nil Bot.sent Bot.calls].
  rewrite <- !app_assoc. cbn [app].
  replace (Bot.calls c + 1 + 1) with (Bot.calls c + 2) by lia.
  rewrite E1. rewrite (reply_text_delivered delivers Hd). reflexivity.
Qed.

Lemma extraction_reported_complete_witness :
  exists c1,
    Bot.send_extracted_content (fun _ _ => true) (fun _ => false) (fun _ => true)
      (mkTopic "General Questions"
         [mkQuestion "What is x?" [] None None None] :: [])
      (Bot.mkChat (Bot.sent (Bot.mkChat [] 0)
                   ++ [Bot.ReplyText Bot.msg_downloading None;
                       Bot.ReplyText Bot.msg_extracting None])
                  (Bot.calls (Bot.mkChat [] 0) + 2)) = (Ok tt, c1) /\
    Bot.handle_document (fun _ _ => true) (fun _ => false) (fun _ => true)
      (Ok "/tmp/d") (Ok tt) (fun _ => Ok tt)
      (fun _ => Ok (mkDocument [mkPage (Ok "Q1. What is x?") (Ok []) (Ok [])]
                               (Ok tt)))
      (Bot.mkUpload "quiz.pdf") (Bot.mkChat [] 0) =
    (Ok tt,
     Bot.mkChat (Bot.sent c1 ++ [Bot.ReplyText Bot.msg_complete None])
                (Bot.calls c1 + 1)).
Proof.
  apply (extraction_reported_complete (fun _ _ => true) (fun _ => false)
           (fun _ => true) (Ok "/tmp/d") (Ok tt) (fun _ => Ok tt)
           (fun _ => Ok (mkDocument
                           [mkPage (Ok "Q1. What is x?") (Ok []) (Ok [])]
                           (Ok tt)))
           (Bot.mkUpload "quiz.pdf") "/tmp/d" (Bot.mkChat [] 0)
           (mkTopic "General Questions"
              [mkQuestion "What is x?" [] None None None]) []);
    reflexivity.
Defined.
